(** * Simmetric: the pedal telemetry component

    A shallow embedding of [SimagicPedalTelemetry], the React component of
    the repository (its latest evolution, the one with the steering wheel),
    and the properties of its sampling loop, history buffer, connection
    state and canvas redraw.

    Modelling conventions.
    - A JavaScript number is an exact rational ([Q]); [===] on numbers is
      [Qeq_bool], [Math.abs] is [Qabs], [Math.max] is [Qmax].  [NaN] and the
      infinities are outside the model, and so is the rounding of doubles.
      The properties below are therefore kept to those that rounding does
      not disturb: bounds (rounding is monotone and the bounds are
      doubles), equations whose two sides are the same expression of the
      source, and values that doubles compute exactly.  No property equates
      two different ways of computing a number.
    - [Date.now()] is an integer number of milliseconds ([Z]).
    - A gamepad identifier is an ASCII [string]; [toLowerCase] maps the
      letters [A]..[Z] and leaves every other character alone.
    - [navigator.getGamepads()] is a [list (option Gamepad)]: [None] is a
      [null] slot.  [axes[i]] is [nth_error axes i], [None] being
      [undefined].
    - The component's [useState] cells form one record [State]; a timer
      callback or a click, with the render that follows it, is a function
      from [State] to [State].
    - A callback reads the cells through its closure, which holds the
      values of the render that created it.  The history effect lists the
      cells its callback reads, so that closure is always current.  The
      poll effect lists [lastUpdate] only, while its callback reads
      [throttle] and [brake] as well: [State] therefore also carries
      [closureThrottle] and [closureBrake], the values the poll callback
      holds, which follow the cells only when [lastUpdate] changes. *)

From Stdlib Require Import List Bool Arith ZArith QArith Qabs Qminmax Qround.
From Stdlib Require Import Ascii String Lia Lqa DecimalString DecimalZ.
Import ListNotations.

(** ** Strings: [toLowerCase] and [includes] *)

Module JsString.

Local Open Scope string_scope.

Definition lowerChar (c : ascii) : ascii :=
  let n := nat_of_ascii c in
  if (65 <=? n)%nat && (n <=? 90)%nat then ascii_of_nat (n + 32) else c.

Fixpoint toLowerCase (s : string) : string :=
  match s with
  | EmptyString => EmptyString
  | String c s' => String (lowerChar c) (toLowerCase s')
  end.

(** [startsWith pat s]: [pat] is a prefix of [s]. *)
Fixpoint startsWith (pat s : string) : bool :=
  match pat, s with
  | EmptyString, _ => true
  | String _ _, EmptyString => false
  | String a pat', String b s' => Ascii.eqb a b && startsWith pat' s'
  end.

(** [includes pat s] is [s.includes(pat)]: [pat] occurs at some position
    of [s]. *)
Fixpoint includes (pat s : string) : bool :=
  startsWith pat s ||
  match s with
  | EmptyString => false
  | String _ s' => includes pat s'
  end.

(** What [includes] decides: [pat] is a contiguous part of [s]. *)
Definition substring_of (pat s : string) : Prop :=
  exists pre post, s = pre ++ pat ++ post.

(** Containment up to the case of letters: some contiguous part of [s]
    lowers to the same string as [pat]. *)
Definition contains_ci (s pat : string) : Prop :=
  exists pre mid post,
    s = pre ++ mid ++ post /\ toLowerCase mid = toLowerCase pat.

End JsString.

Import JsString.

(** ** Data model *)

(** One slot of [navigator.getGamepads()]. *)
Record Gamepad := mkGamepad {
  id : string;
  axes : list Q
}.

Record SessionStats := mkSessionStats {
  startTime : Z;
  peakThrottle : Q;
  peakBrake : Q;
  peakSteering : Q
}.

Module HistoryItem.
Record t := mk {
  throttle : Q;
  brake : Q;
  steering : Q
}.
End HistoryItem.

(** The diagnostics cell: the device name and its axes with their index.
    The source stores each value as the text [v.toFixed(3)]; the model keeps
    the number itself. *)
Module DebugInfo.
Record t := mk {
  name : string;
  axes : list (nat * Q)
}.
End DebugInfo.

(** The values of the [connectionStatus] cell: ['polling'], ['connected'],
    ['connected-generic'] and ['no-device']. *)
Inductive ConnectionStatus :=
| polling
| connected
| connected_generic
| no_device.

(** The [useState] cells of the component, and the values of [throttle]
    and [brake] that the closure of the poll callback holds. *)
Record State := mkState {
  throttle : Q;
  brake : Q;
  steering : Q;
  steeringAngle : Q;
  history : list HistoryItem.t;
  connectionStatus : ConnectionStatus;
  lastUpdate : Z;
  debugInfo : option DebugInfo.t;
  sessionStats : SessionStats;
  closureThrottle : Q;
  closureBrake : Q
}.

(** What the poll callback holds for a cell after the render that follows
    an update: the poll effect has the dependency list [[lastUpdate]], so
    it builds a new callback, which captures the cell of that render, when
    [lastUpdate] went from [before] to a different [after], and keeps the
    callback it has, with the value [held], otherwise. *)
Definition recapture (before after : Z) (held cell : Q) : Q :=
  if (after =? before)%Z then held else cell.

(** The cells at mount; [tUpdate] and [tStart] are the two [Date.now()]
    readings of the initialisers. *)
Definition initialState (tUpdate tStart : Z) : State :=
  {| throttle := 0;
     brake := 0;
     steering := 0;
     steeringAngle := 0;
     history := [];
     connectionStatus := polling;
     lastUpdate := tUpdate;
     debugInfo := None;
     sessionStats :=
       {| startTime := tStart;
          peakThrottle := 0;
          peakBrake := 0;
          peakSteering := 0 |};
     closureThrottle := 0;
     closureBrake := 0 |}.

Definition maxHistory : nat := 200.

(** ** The poll callback *)

Local Open Scope string_scope.
Local Open Scope list_scope.
Local Open Scope Q_scope.

(** The match test of the poll loop, for a slot that is not [null]. *)
Definition isMatch (gamepad : Gamepad) : bool :=
  includes "simagic" (toLowerCase (id gamepad)) ||
  includes "p1000" (toLowerCase (id gamepad)) ||
  includes "p2000" (toLowerCase (id gamepad)) ||
  (3 <=? List.length (axes gamepad))%nat.

(** [a[i] !== undefined ? a[i] : d] *)
Definition axisOrDefault (a : list Q) (i : nat) (d : Q) : Q :=
  match nth_error a i with
  | Some v => v
  | None => d
  end.

(** [x || y] on values that are a number or [undefined]: [undefined] and
    [0] are falsy. *)
Definition truthy (x : option Q) : bool :=
  match x with
  | Some v => negb (Qeq_bool v 0)
  | None => false
  end.

Definition jsOr (x y : option Q) : option Q :=
  if truthy x then x else y.

(** [x || d] with a number [d] on the right. *)
Definition orNumber (x : option Q) (d : Q) : Q :=
  match x with
  | Some v => if Qeq_bool v 0 then d else v
  | None => d
  end.

(** [newThrottle] and [newBrake] of the matched branch, as functions of the
    raw axis and of the percent held in the cell. *)
Definition newThrottle (throttleAxis throttle : Q) : Q :=
  if Qeq_bool throttleAxis 0 && Qeq_bool throttle 0
  then 0
  else ((throttleAxis + 1) / 2) * 100.

Definition newBrake (brakeAxis brake : Q) : Q :=
  if Qeq_bool brakeAxis 0 && Qeq_bool brake 0
  then 0
  else ((brakeAxis + 1) / 2) * 100.

(** [throttleAxis], [brakeAxis] and [steeringAxis] of the matched branch. *)
Definition throttleAxis (gamepad : Gamepad) : Q :=
  axisOrDefault (axes gamepad) 1 (-1).

Definition brakeAxis (gamepad : Gamepad) : Q :=
  axisOrDefault (axes gamepad) 2 (-1).

Definition steeringAxis (gamepad : Gamepad) : Q :=
  axisOrDefault (axes gamepad) 0 0.

(** [a.map((v, i) => (i, v))], counting from [i]. *)
Fixpoint indexedFrom (i : nat) (a : list Q) : list (nat * Q) :=
  match a with
  | [] => []
  | v :: a' => (i, v) :: indexedFrom (S i) a'
  end.

(** The body of the loop for the slot that matches: every setter of the
    branch, applied to the cells [s].  The guards of [newThrottle] and
    [newBrake] read [throttle] and [brake] through the closure. *)
Definition matchedUpdate (gamepad : Gamepad) (now : Z) (s : State) : State :=
  let newThrottle := newThrottle (throttleAxis gamepad) (closureThrottle s) in
  let newBrake := newBrake (brakeAxis gamepad) (closureBrake s) in
  let rawSteeringAngle := steeringAxis gamepad * 450 in
  let newSteering := Qabs (steeringAxis gamepad) * 100 in
  let prev := sessionStats s in
  {| throttle := newThrottle;
     brake := newBrake;
     steering := newSteering;
     steeringAngle := rawSteeringAngle;
     history := history s;
     connectionStatus := connected;
     lastUpdate := now;
     debugInfo :=
       Some (DebugInfo.mk (id gamepad) (indexedFrom 0 (axes gamepad)));
     sessionStats :=
       {| startTime := startTime prev;
          peakThrottle := Qmax (peakThrottle prev) newThrottle;
          peakBrake := Qmax (peakBrake prev) newBrake;
          peakSteering :=
            Qmax (peakSteering prev) (Qabs rawSteeringAngle) |};
     closureThrottle :=
       recapture (lastUpdate s) now (closureThrottle s) newThrottle;
     closureBrake :=
       recapture (lastUpdate s) now (closureBrake s) newBrake |}.

(** The [for] loop: the slots in order, leaving at the first match.  The
    result is [foundSimagic] and the cells. *)
Fixpoint matchLoop (gamepads : list (option Gamepad)) (now : Z) (s : State)
  : bool * State :=
  match gamepads with
  | [] => (false, s)
  | Some gamepad :: rest =>
      if isMatch gamepad then (true, matchedUpdate gamepad now s)
      else matchLoop rest now s
  | None :: rest => matchLoop rest now s
  end.

Definition notNull (g : option Gamepad) : bool :=
  match g with
  | Some _ => true
  | None => false
  end.

(** The setters of the generic branch. *)
Definition genericUpdate (gamepad : Gamepad) (now : Z) (s : State) : State :=
  let a := axes gamepad in
  let tAxis := orNumber (nth_error a 1) (-1) in
  let bAxis := orNumber (jsOr (nth_error a 2) (nth_error a 0)) 0 in
  let cAxis := orNumber (nth_error a 0) 0 in
  {| throttle := ((1 - tAxis) / 2) * 100;
     brake := ((1 - bAxis) / 2) * 100;
     steering := ((1 - cAxis) / 2) * 100;
     steeringAngle := cAxis * 450;
     history := history s;
     connectionStatus := connected_generic;
     lastUpdate := now;
     debugInfo := debugInfo s;
     sessionStats := sessionStats s;
     closureThrottle :=
       recapture (lastUpdate s) now (closureThrottle s)
         (((1 - tAxis) / 2) * 100);
     closureBrake :=
       recapture (lastUpdate s) now (closureBrake s)
         (((1 - bAxis) / 2) * 100) |}.

Definition setConnectionStatus (c : ConnectionStatus) (s : State) : State :=
  {| throttle := throttle s;
     brake := brake s;
     steering := steering s;
     steeringAngle := steeringAngle s;
     history := history s;
     connectionStatus := c;
     lastUpdate := lastUpdate s;
     debugInfo := debugInfo s;
     sessionStats := sessionStats s;
     closureThrottle := closureThrottle s;
     closureBrake := closureBrake s |}.

Definition setLastUpdate (t : Z) (s : State) : State :=
  {| throttle := throttle s;
     brake := brake s;
     steering := steering s;
     steeringAngle := steeringAngle s;
     history := history s;
     connectionStatus := connectionStatus s;
     lastUpdate := t;
     debugInfo := debugInfo s;
     sessionStats := sessionStats s;
     closureThrottle :=
       recapture (lastUpdate s) t (closureThrottle s) (throttle s);
     closureBrake :=
       recapture (lastUpdate s) t (closureBrake s) (brake s) |}.

Definition setHistory (f : list HistoryItem.t -> list HistoryItem.t)
  (s : State) : State :=
  {| throttle := throttle s;
     brake := brake s;
     steering := steering s;
     steeringAngle := steeringAngle s;
     history := f (history s);
     connectionStatus := connectionStatus s;
     lastUpdate := lastUpdate s;
     debugInfo := debugInfo s;
     sessionStats := sessionStats s;
     closureThrottle := closureThrottle s;
     closureBrake := closureBrake s |}.

(** One tick of the poll timer: [pollGamepads], with [gamepads] the answer
    of [navigator.getGamepads()] and [now] the reading of [Date.now()] in
    the branch taken, and the render that follows. *)
Definition pollGamepads (gamepads : list (option Gamepad)) (now : Z)
  (s : State) : State :=
  let (foundSimagic, s1) := matchLoop gamepads now s in
  if negb foundSimagic && existsb notNull gamepads then
    match find notNull gamepads with
    | Some (Some gamepad) =>
        if (2 <=? List.length (axes gamepad))%nat
        then genericUpdate gamepad now s1
        else s1
    | _ => s1
    end
  else if negb foundSimagic then
    if (now - lastUpdate s >? 2000)%Z
    then setConnectionStatus no_device s1
    else s1
  else s1.

(** ** The history callback *)

(** The function given to [setHistory]: append, and drop the first entry
    when the array grew past [maxHistory]. *)
Definition appendHistory (item : HistoryItem.t) (prev : list HistoryItem.t)
  : list HistoryItem.t :=
  let newHistory := prev ++ [item] in
  if (maxHistory <? List.length newHistory)%nat
  then tl newHistory
  else newHistory.

(** One tick of [historyInterval]: the item is built from the cells the
    closure holds. *)
Definition historyTick (s : State) : State :=
  setHistory
    (appendHistory (HistoryItem.mk (throttle s) (brake s) (steering s))) s.

(** ** The refresh button *)

Definition refresh (now : Z) (s : State) : State :=
  setLastUpdate now (setConnectionStatus polling s).

(** ** The draw effect *)

(** The calls made on the 2D context, in order. *)
Inductive CanvasOp :=
| fillStyle (color : string)
| fillRect (x y w h : Q)
| strokeStyle (color : string)
| lineWidth (w : Q)
| beginPath
| moveTo (x y : Q)
| lineTo (x y : Q)
| stroke.

(** The canvas element: its size and whether [getContext('2d')] gives a
    context. *)
Record Canvas := mkCanvas {
  width : Q;
  height : Q;
  context2d : bool
}.

Definition ofNat (i : nat) : Q := inject_Z (Z.of_nat i).

Definition drawBackground (canvas : Canvas) : list CanvasOp :=
  [ fillStyle "#0a0a0a";
    fillRect 0 0 (width canvas) (height canvas) ].

(** One turn of the grid loop. *)
Definition gridLine (canvas : Canvas) (i : nat) : list CanvasOp :=
  let y := (height canvas / 4) * ofNat i in
  [ beginPath; moveTo 0 y; lineTo (width canvas) y; stroke ].

Definition drawGrid (canvas : Canvas) : list CanvasOp :=
  [ strokeStyle "#2a2a2a"; lineWidth 1 ] ++
  flat_map (gridLine canvas) (seq 0 5).

Definition xStep (canvas : Canvas) : Q :=
  width canvas / ofNat (maxHistory - 1).

(** [history.forEach((point, i) => ...)] of [drawAxis], counting from [i]. *)
Fixpoint forEachPoint (canvas : Canvas) (dataKey : HistoryItem.t -> Q)
  (i : nat) (history : list HistoryItem.t) : list CanvasOp :=
  match history with
  | [] => []
  | point :: rest =>
      let x := ofNat i * xStep canvas in
      let y := height canvas - (dataKey point / 100) * height canvas in
      (if (i =? 0)%nat then moveTo x y else lineTo x y)
        :: forEachPoint canvas dataKey (S i) rest
  end.

Definition drawAxis (canvas : Canvas) (history : list HistoryItem.t)
  (color : string) (dataKey : HistoryItem.t -> Q) : list CanvasOp :=
  [ strokeStyle color; lineWidth 2.5; beginPath ] ++
  forEachPoint canvas dataKey 0 history ++
  [ stroke ].

(** The effect that runs when [history] changes.  [None] is a
    [canvasRef.current] that is [null]. *)
Definition draw (canvasRef : option Canvas) (history : list HistoryItem.t)
  : list CanvasOp :=
  match canvasRef with
  | None => []
  | Some canvas =>
      if context2d canvas then
        drawBackground canvas ++
        drawGrid canvas ++
        (if (List.length history <? 2)%nat then []
         else
           drawAxis canvas history "#00c73cff" HistoryItem.throttle ++
           drawAxis canvas history "#ef4444" HistoryItem.brake ++
           drawAxis canvas history "#3b82f6" HistoryItem.steering)
      else []
  end.

(** ** Runs of the component *)

(** What can happen to the mounted component: a tick of the poll timer, a
    tick of the history timer, a click on the refresh button. *)
Inductive Event :=
| Poll (gamepads : list (option Gamepad)) (now : Z)
| HistoryTick
| Refresh (now : Z).

Definition step (e : Event) (s : State) : State :=
  match e with
  | Poll gamepads now => pollGamepads gamepads now s
  | HistoryTick => historyTick s
  | Refresh now => refresh now s
  end.

Definition run (es : list Event) (s : State) : State :=
  fold_left (fun s e => step e s) es s.

(** The states a run goes through, one per event. *)
Fixpoint visited (es : list Event) (s : State) : list State :=
  match es with
  | [] => []
  | e :: es' => step e s :: visited es' (step e s)
  end.

(** ** Notions the properties are stated with *)

(** The brand and model tokens of the match test. *)
Definition brandTokens : list string := [ "simagic"; "p1000"; "p2000" ].

(** Some slot of the poll holds a gamepad that passes the match test. *)
Definition hasMatch (gamepads : list (option Gamepad)) : bool :=
  existsb (fun g => match g with
                    | Some gamepad => isMatch gamepad
                    | None => false
                    end) gamepads.

(** The first slot that passes the match test, with its index. *)
Definition firstMatch (gamepads : list (option Gamepad)) (i : nat)
  (gamepad : Gamepad) : Prop :=
  nth_error gamepads i = Some (Some gamepad) /\
  isMatch gamepad = true /\
  forall j g, (j < i)%nat ->
    nth_error gamepads j = Some (Some g) -> isMatch g = false.

Definition eventTime (e : Event) : option Z :=
  match e with
  | Poll _ now => Some now
  | HistoryTick => None
  | Refresh now => Some now
  end.

(** The clock readings of a run do not go back, starting from [t]. *)
Fixpoint chronological (t : Z) (es : list Event) : bool :=
  match es with
  | [] => true
  | e :: es' =>
      match eventTime e with
      | Some t' => (t <=? t')%Z && chronological t' es'
      | None => chronological t es'
      end
  end.

(** The time of the last poll of the run that found a match. *)
Fixpoint lastMatchTime (es : list Event) : option Z :=
  match es with
  | [] => None
  | e :: es' =>
      match lastMatchTime es' with
      | Some t => Some t
      | None =>
          match e with
          | Poll gamepads now => if hasMatch gamepads then Some now else None
          | _ => None
          end
      end
  end.

(** Every clock reading of the run lies in [lo, hi]. *)
Definition timesWithin (lo hi : Z) (es : list Event) : Prop :=
  Forall (fun e => forall t, eventTime e = Some t -> (lo <= t <= hi)%Z) es.

(** A poll in which some slot is filled, nothing matches and every filled
    slot has fewer than two axes. *)
Definition fewAxesPoll (gamepads : list (option Gamepad)) : Prop :=
  existsb notNull gamepads = true /\
  hasMatch gamepads = false /\
  forall g, In (Some g) gamepads -> (List.length (axes g) < 2)%nat.

(** [p] is the largest of the starting peak [p0] and the samples [xs]: it
    bounds all of them and is equal to one of them. *)
Definition runningMax (p0 : Q) (xs : list Q) (p : Q) : Prop :=
  p0 <= p /\
  Forall (fun x => x <= p) xs /\
  (p == p0 \/ Exists (fun x => p == x) xs).

(** The poll takes the generic branch down to its setters. *)
Definition genericBranch (gamepads : list (option Gamepad)) : bool :=
  negb (hasMatch gamepads) &&
  match find notNull gamepads with
  | Some (Some gamepad) => (2 <=? List.length (axes gamepad))%nat
  | _ => false
  end.

(** The poll stores a new normalized reading: it takes the matched branch
    or the generic one. *)
Definition storesReading (gamepads : list (option Gamepad)) : bool :=
  hasMatch gamepads || genericBranch gamepads.

(** The values of [cell] after each poll of the run selected by [sel],
    starting from the cells [s]. *)
Fixpoint samples (sel : list (option Gamepad) -> bool) (cell : State -> Q)
  (es : list Event) (s : State) : list Q :=
  match es with
  | [] => []
  | e :: es' =>
      match e with
      | Poll gamepads _ =>
          if sel gamepads then [cell (step e s)] else []
      | _ => []
      end ++ samples sel cell es' (step e s)
  end.

(** The size of the steering angle, the quantity [peakSteering] follows. *)
Definition steeringSize (s : State) : Q := Qabs (steeringAngle s).

(** The history after appending [items] in order to [h]. *)
Definition appendAll (items h : list HistoryItem.t) : list HistoryItem.t :=
  fold_left (fun h item => appendHistory item h) items h.

(** The items the history ticks of a run append, in order, starting from
    the cells [s]. *)
Fixpoint recorded (es : list Event) (s : State) : list HistoryItem.t :=
  match es with
  | [] => []
  | e :: es' =>
      match e with
      | HistoryTick => [HistoryItem.mk (throttle s) (brake s) (steering s)]
      | _ => []
      end ++ recorded es' (step e s)
  end.

(** The event is a poll of the kind [fewAxesPoll]. *)
Definition fewAxesCycle (e : Event) : Prop :=
  match e with
  | Poll gamepads _ => fewAxesPoll gamepads
  | _ => False
  end.

(** The four ways a poll can end: on the first match, in the generic
    branch, without touching the cells, or on the timeout. *)
Inductive PollResult (gamepads : list (option Gamepad)) (now : Z) (s : State)
  : State -> Prop :=
| poll_matched i g :
    firstMatch gamepads i g ->
    PollResult gamepads now s (matchedUpdate g now s)
| poll_generic g :
    hasMatch gamepads = false ->
    find notNull gamepads = Some (Some g) ->
    (2 <= List.length (axes g))%nat ->
    PollResult gamepads now s (genericUpdate g now s)
| poll_idle :
    hasMatch gamepads = false ->
    PollResult gamepads now s s
| poll_timeout :
    hasMatch gamepads = false ->
    existsb notNull gamepads = false ->
    (2000 < now - lastUpdate s)%Z ->
    PollResult gamepads now s (setConnectionStatus no_device s).

(** The last [n] entries of a list. *)
Definition lastN (n : nat) (l : list HistoryItem.t) : list HistoryItem.t :=
  skipn (List.length l - n) l.

(** The number of paths stroked by a sequence of canvas calls. *)
Definition strokes (ops : list CanvasOp) : nat :=
  List.length
    (filter (fun op => match op with stroke => true | _ => false end) ops).

(** ** Sample inputs *)

(** A branded pedal set in slot 1, throttle half way, brake released. *)
Definition pedalsHalfThrottle : list (option Gamepad) :=
  [ None; Some (mkGamepad "Simagic P2000" [0; 0.5; -1]) ].

(** A branded pedal set whose pedal axes still read their power-on 0. *)
Definition pedalsAtRest : list (option Gamepad) :=
  [ Some (mkGamepad "SIMAGIC pedals" [0.5; 0; 0]) ].

(** A pedal set with the throttle axis at [(k - 100) / 100]. *)
Definition pedalsAt (k : nat) : list (option Gamepad) :=
  [ Some (mkGamepad "simagic" [0; (ofNat k - 100) / 100; -1]) ].

(** 201 frames: a poll with the throttle one step further, then a history
    tick. *)
Definition sweepRun : list Event :=
  flat_map (fun k => [ Poll (pedalsAt k) (16 * Z.of_nat k); HistoryTick ])
    (seq 0 201).

(** A generic two-axis device: first axis full right, second axis at -1. *)
Definition mouseFullThrottle : list (option Gamepad) :=
  [ Some (mkGamepad "Mouse" [1; -1]) ].

(** A generic two-axis device whose second axis reads exactly 0. *)
Definition mouseCentred : list (option Gamepad) :=
  [ Some (mkGamepad "Mouse" [0.5; 0]) ].

(** A device with a single axis and one with none, polled long after the
    pedals went away. *)
Definition loneAxisRun : list Event :=
  [ Poll [ None; Some (mkGamepad "Mouse" [0.3]) ] 5000;
    Poll [ Some (mkGamepad "Keyboard" []) ] 1000000 ].

(** The pedals drop out of the enumeration for a moment after a match at
    100 ms: empty polls up to 1999 ms later. *)
Definition shortGapRun : list Event :=
  [ Poll [] 116; HistoryTick; Poll [ None ] 1000; Poll [ None; None ] 2099 ].

(** ** The steering bar *)

Definition Qltb (x y : Q) : bool := negb (Qle_bool y x).

(** The [left] and [right] offsets of the steering bar, in percent of its
    track: [steeringAngle < 0 ? 50 + steeringAngle / 9 : 50] and
    [steeringAngle > 0 ? 50 - steeringAngle / 9 : 50]. *)
Definition steeringBarLeft (steeringAngle : Q) : Q :=
  if Qltb steeringAngle 0 then 50 + steeringAngle / 9 else 50.

Definition steeringBarRight (steeringAngle : Q) : Q :=
  if Qltb 0 steeringAngle then 50 - steeringAngle / 9 else 50.

(** ** Ranges *)

Definition isPercent (x : Q) : Prop := 0 <= x <= 100.

Definition isAxis (a : Q) : Prop := -1 <= a <= 1.

(** Every axis of every gamepad of the poll reads within [-1, 1]. *)
Definition axesInRange (gamepads : list (option Gamepad)) : Prop :=
  forall g, In (Some g) gamepads -> Forall isAxis (axes g).

Definition eventInRange (e : Event) : Prop :=
  match e with
  | Poll gamepads _ => axesInRange gamepads
  | _ => True
  end.

Definition itemInRange (item : HistoryItem.t) : Prop :=
  isPercent (HistoryItem.throttle item) /\
  isPercent (HistoryItem.brake item) /\
  isPercent (HistoryItem.steering item).

(** The cells hold percentages and a steering angle within the lock. *)
Definition cellsInRange (s : State) : Prop :=
  isPercent (throttle s) /\
  isPercent (brake s) /\
  isPercent (steering s) /\
  -450 <= steeringAngle s <= 450 /\
  Forall itemInRange (history s) /\
  isPercent (peakThrottle (sessionStats s)) /\
  isPercent (peakBrake (sessionStats s)) /\
  0 <= peakSteering (sessionStats s) <= 450.



(** The reading a history tick records. *)
Definition snapshot (s : State) : HistoryItem.t :=
  HistoryItem.mk (throttle s) (brake s) (steering s).

(** The status a poll leaves, told from what the enumeration holds. *)
Definition statusAfterPoll (gamepads : list (option Gamepad)) (now : Z)
  (s : State) : ConnectionStatus :=
  if hasMatch gamepads then connected
  else if genericBranch gamepads then connected_generic
  else if existsb notNull gamepads then connectionStatus s
  else if (2000 <? now - lastUpdate s)%Z then no_device
  else connectionStatus s.

(** A short session: pedals found, a history tick, then a generic device,
    a refresh and a tick. *)
Definition mixedRun : list Event :=
  [ Poll pedalsHalfThrottle 16; HistoryTick;
    Poll mouseFullThrottle 32; Refresh 40; HistoryTick ].

(** Where [forEachPoint] puts the entry [point] of index [j]. *)
Definition plotX (canvas : Canvas) (j : nat) : Q := ofNat j * xStep canvas.

Definition plotY (canvas : Canvas) (value : Q) : Q :=
  height canvas - (value / 100) * height canvas.

(** The canvas of the component: 1200 by 300, with a 2D context. *)
Definition chartCanvas : Canvas := mkCanvas 1200 300 true.

(** A branded pedal set that exposes a single axis. *)
Definition pedalsOneAxis : list (option Gamepad) :=
  [ Some (mkGamepad "Simagic P1000" [0.25]) ].

(** ** The component of [components/Home.tsx]

    The version the application mounts.  It has no [steeringAngle] cell,
    reads a missing pedal axis as 0, has no guard on a pedal axis at rest,
    follows the steering percent with [peakSteering], and shows the time of
    the session. *)

Module Home.

Record State := mkState {
  throttle : Q;
  brake : Q;
  steering : Q;
  history : list HistoryItem.t;
  connectionStatus : ConnectionStatus;
  lastUpdate : Z;
  debugInfo : option DebugInfo.t;
  sessionStats : SessionStats
}.

Definition initialState (tUpdate tStart : Z) : State :=
  {| throttle := 0;
     brake := 0;
     steering := 0;
     history := [];
     connectionStatus := polling;
     lastUpdate := tUpdate;
     debugInfo := None;
     sessionStats :=
       {| startTime := tStart;
          peakThrottle := 0;
          peakBrake := 0;
          peakSteering := 0 |} |}.

(** The body of the loop for the slot that matches. *)
Definition matchedUpdate (gamepad : Gamepad) (now : Z) (s : State) : State :=
  let throttleAxis := axisOrDefault (axes gamepad) 1 0 in
  let brakeAxis := axisOrDefault (axes gamepad) 2 0 in
  let steeringAxis := axisOrDefault (axes gamepad) 0 0 in
  let newThrottle := ((throttleAxis + 1) / 2) * 100 in
  let newBrake := ((brakeAxis + 1) / 2) * 100 in
  let newSteering := Qabs steeringAxis * 100 in
  let prev := sessionStats s in
  {| throttle := newThrottle;
     brake := newBrake;
     steering := newSteering;
     history := history s;
     connectionStatus := connected;
     lastUpdate := now;
     debugInfo :=
       Some (DebugInfo.mk (id gamepad) (indexedFrom 0 (axes gamepad)));
     sessionStats :=
       {| startTime := startTime prev;
          peakThrottle := Qmax (peakThrottle prev) newThrottle;
          peakBrake := Qmax (peakBrake prev) newBrake;
          peakSteering := Qmax (peakSteering prev) newSteering |} |}.

Fixpoint matchLoop (gamepads : list (option Gamepad)) (now : Z) (s : State)
  : bool * State :=
  match gamepads with
  | [] => (false, s)
  | Some gamepad :: rest =>
      if isMatch gamepad then (true, matchedUpdate gamepad now s)
      else matchLoop rest now s
  | None :: rest => matchLoop rest now s
  end.

(** The setters of the generic branch. *)
Definition genericUpdate (gamepad : Gamepad) (now : Z) (s : State) : State :=
  let a := axes gamepad in
  let tAxis := orNumber (nth_error a 1) 0 in
  let bAxis := orNumber (jsOr (nth_error a 2) (nth_error a 0)) 0 in
  let cAxis := orNumber (nth_error a 0) 0 in
  {| throttle := ((1 - tAxis) / 2) * 100;
     brake := ((1 - bAxis) / 2) * 100;
     steering := ((1 - cAxis) / 2) * 100;
     history := history s;
     connectionStatus := connected_generic;
     lastUpdate := now;
     debugInfo := debugInfo s;
     sessionStats := sessionStats s |}.

Definition setConnectionStatus (c : ConnectionStatus) (s : State) : State :=
  {| throttle := throttle s;
     brake := brake s;
     steering := steering s;
     history := history s;
     connectionStatus := c;
     lastUpdate := lastUpdate s;
     debugInfo := debugInfo s;
     sessionStats := sessionStats s |}.

Definition setLastUpdate (t : Z) (s : State) : State :=
  {| throttle := throttle s;
     brake := brake s;
     steering := steering s;
     history := history s;
     connectionStatus := connectionStatus s;
     lastUpdate := t;
     debugInfo := debugInfo s;
     sessionStats := sessionStats s |}.

Definition setHistory (f : list HistoryItem.t -> list HistoryItem.t)
  (s : State) : State :=
  {| throttle := throttle s;
     brake := brake s;
     steering := steering s;
     history := f (history s);
     connectionStatus := connectionStatus s;
     lastUpdate := lastUpdate s;
     debugInfo := debugInfo s;
     sessionStats := sessionStats s |}.

Definition pollGamepads (gamepads : list (option Gamepad)) (now : Z)
  (s : State) : State :=
  let (foundSimagic, s1) := matchLoop gamepads now s in
  if negb foundSimagic && existsb notNull gamepads then
    match find notNull gamepads with
    | Some (Some gamepad) =>
        if (2 <=? List.length (axes gamepad))%nat
        then genericUpdate gamepad now s1
        else s1
    | _ => s1
    end
  else if negb foundSimagic then
    if (now - lastUpdate s >? 2000)%Z
    then setConnectionStatus no_device s1
    else s1
  else s1.

Definition historyTick (s : State) : State :=
  setHistory
    (appendHistory (HistoryItem.mk (throttle s) (brake s) (steering s))) s.

Definition refresh (now : Z) (s : State) : State :=
  setLastUpdate now (setConnectionStatus polling s).

Definition step (e : Event) (s : State) : State :=
  match e with
  | Poll gamepads now => pollGamepads gamepads now s
  | HistoryTick => historyTick s
  | Refresh now => refresh now s
  end.

Definition run (es : list Event) (s : State) : State :=
  fold_left (fun s e => step e s) es s.

(** [n.toString()] for an integer. *)
Definition toString (n : Z) : string :=
  NilEmpty.string_of_int (Z.to_int n).

(** [s.padStart(targetLength, c)] for a pad string of one character. *)
Definition padStart (targetLength : nat) (c : ascii) (s : string) : string :=
  Nat.iter (targetLength - String.length s) (String c) s.

(** [formatSessionTime], with [now] the reading of [Date.now()]. *)
Definition formatSessionTime (now : Z) (s : State) : string :=
  let elapsed := ((now - startTime (sessionStats s)) / 1000)%Z in
  let minutes := (elapsed / 60)%Z in
  let seconds := Z.rem elapsed 60 in
  (toString minutes ++ ":" ++ padStart 2 "0" (toString seconds))%string.

Definition isActive (s : State) : bool :=
  Qltb 5 (throttle s) || Qltb 5 (brake s) || Qltb 5 (steering s).

End Home.

(** The decimal digit [d], for [d] below 10. *)
Definition digitChar (d : Z) : ascii := ascii_of_nat (48 + Z.to_nat d).

(** The cells of the two versions hold the same values.  The steering
    peaks are kept in different units, degrees and percent: they are the
    images of the same reading [m], as the two versions compute them. *)
Definition sameCells (s : State) (h : Home.State) : Prop :=
  throttle s = Home.throttle h /\
  brake s = Home.brake h /\
  steering s = Home.steering h /\
  history s = Home.history h /\
  connectionStatus s = Home.connectionStatus h /\
  lastUpdate s = Home.lastUpdate h /\
  debugInfo s = Home.debugInfo h /\
  startTime (sessionStats s) = startTime (Home.sessionStats h) /\
  peakThrottle (sessionStats s) = peakThrottle (Home.sessionStats h) /\
  peakBrake (sessionStats s) = peakBrake (Home.sessionStats h) /\
  (exists m,
     peakSteering (sessionStats s) == Qabs (m * 450) /\
     peakSteering (Home.sessionStats h) == Qabs m * 100).

(** No pedal axis of the poll reads exactly 0, and every device that
    matches has the three axes the matched branch reads. *)
Definition pedalsOffZero (gamepads : list (option Gamepad)) : Prop :=
  forall g, In (Some g) gamepads ->
    (isMatch g = true -> (3 <= List.length (axes g))%nat) /\
    (forall v, nth_error (axes g) 1 = Some v -> ~ v == 0) /\
    (forall v, nth_error (axes g) 2 = Some v -> ~ v == 0).

Definition eventOffZero (e : Event) : Prop :=
  match e with
  | Poll gamepads _ => pedalsOffZero gamepads
  | _ => True
  end.

(** The whole seconds of the session at the clock reading [now]. *)
Definition sessionSeconds (now : Z) (h : Home.State) : Z :=
  ((now - startTime (Home.sessionStats h)) / 1000)%Z.

(** The two decimal digits of [n], tens first. *)
Definition twoDigits (n : Z) : string :=
  String (digitChar (n / 10)) (String (digitChar (n mod 10)) EmptyString).

(** [x.toFixed(0)]: the nearest integer in decimal, a tie going away from
    0, with the sign of [x] kept in front when [x] is negative. *)
Definition toFixed0 (x : Q) : string :=
  if Qltb x 0
  then ("-" ++ Home.toString (Qfloor (- x + (1 # 2))))%string
  else Home.toString (Qfloor (x + (1 # 2))).

(** The percent texts of the pedal and steering read-outs:
    [`${x.toFixed(0)}%`]. *)
Definition percentText (x : Q) : string := (toFixed0 x ++ "%")%string.

(** ** The closure of the poll callback *)

(** The poll callback holds the current [throttle] and [brake]. *)
Definition closureFresh (s : State) : Prop :=
  closureThrottle s = throttle s /\ closureBrake s = brake s.

(** Every clock reading of the run is later than the one before, starting
    after [t]. *)
Fixpoint clockAdvances (t : Z) (es : list Event) : bool :=
  match es with
  | [] => true
  | e :: es' =>
      match eventTime e with
      | Some t' => (t <? t')%Z && clockAdvances t' es'
      | None => clockAdvances t es'
      end
  end.

(** A branded pedal set with the throttle axis at [t] and the brake axis
    at [b]. *)
Definition pedalsWith (t b : Q) : list (option Gamepad) :=
  [ Some (mkGamepad "Simagic P2000" [0; t; b]) ].

(** Mounted at clock reading 1000, then a poll that reads both pedals
    fully pressed while the clock still reads 1000. *)
Definition staleAtFullThrottle : State :=
  pollGamepads (pedalsWith 1 1) 1000 (initialState 1000 1000).

(** Mounted at clock reading 1000, a poll at 1016 with both pedals fully
    pressed, then a poll with both pedals released while the clock still
    reads 1016. *)
Definition staleAtRelease : State :=
  pollGamepads (pedalsWith (-1) (-1)) 1016
    (pollGamepads (pedalsWith 1 1) 1016 (initialState 1000 1000)).

(** * Properties *)

(** ** Strings *)

Section StringFacts.

Local Open Scope string_scope.

Lemma startsWith_spec pat : forall s,
  startsWith pat s = true <-> exists post, s = pat ++ post.
Proof.
  induction pat as [|a pat IH]; intros s; simpl.
  - split; [intros _; exists s; reflexivity | reflexivity].
  - destruct s as [|b s].
    + split; [discriminate | intros [post H]; discriminate].
    + rewrite andb_true_iff, Ascii.eqb_eq, IH. split.
      * intros [-> [post ->]]. exists post. reflexivity.
      * intros [post H]. injection H as -> ->. split; eauto.
Qed.

Lemma includes_spec pat : forall s,
  includes pat s = true <-> substring_of pat s.
Proof.
  unfold substring_of.
  induction s as [|b s IH].
  - cbn [includes]. rewrite orb_false_r, startsWith_spec. split.
    + intros [post H]. exists "", post. exact H.
    + intros [pre [post H]]. destruct pre; [eauto | discriminate].
  - cbn [includes]. rewrite orb_true_iff, startsWith_spec, IH. split.
    + intros [[post H] | [pre [post H]]].
      * exists "", post. exact H.
      * exists (String b pre), post. simpl. now rewrite H.
    + intros [pre [post H]]. destruct pre as [|c pre].
      * left. exists post. exact H.
      * right. simpl in H. injection H as _ H. eauto.
Qed.

Lemma toLowerCase_app s t :
  toLowerCase (s ++ t) = toLowerCase s ++ toLowerCase t.
Proof. induction s as [|c s IH]; simpl; [reflexivity | now rewrite IH]. Qed.

(** A lowered string that splits in two comes from a split of the original
    at the same place. *)
Lemma toLowerCase_split : forall s u v,
  toLowerCase s = u ++ v ->
  exists s1 s2, s = s1 ++ s2 /\ toLowerCase s1 = u /\ toLowerCase s2 = v.
Proof.
  intros s u. revert s.
  induction u as [|a u IH]; intros s v H.
  - exists "", s. simpl in *. auto.
  - destruct s as [|c s]; [discriminate|].
    simpl in H. injection H as Hc H.
    destruct (IH _ _ H) as [s1 [s2 [-> [H1 H2]]]].
    exists (String c s1), s2. simpl. now rewrite Hc, H1, H2.
Qed.

(** [s.toLowerCase().includes(tok)], for a token written in lower case, is
    containment up to case. *)
Lemma includes_toLowerCase tok s :
  toLowerCase tok = tok ->
  includes tok (toLowerCase s) = true <-> contains_ci s tok.
Proof.
  intros Htok. rewrite includes_spec. unfold substring_of, contains_ci.
  split.
  - intros [pre [post H]].
    destruct (toLowerCase_split _ _ _ H) as [s1 [s2 [-> [H1 H2]]]].
    destruct (toLowerCase_split _ _ _ H2) as [m [p [-> [Hm Hp]]]].
    exists s1, m, p. split; [reflexivity | congruence].
  - intros [pre [mid [post [-> Hmid]]]].
    exists (toLowerCase pre), (toLowerCase post).
    now rewrite !toLowerCase_app, Hmid, Htok.
Qed.

End StringFacts.

(** ** The device locator *)

Section Locator.

Local Open Scope string_scope.
Local Open Scope list_scope.

Lemma isMatch_spec g :
  isMatch g = true <->
  (exists tok, In tok brandTokens /\ contains_ci (id g) tok) \/
  (3 <= List.length (axes g))%nat.
Proof.
  unfold isMatch, brandTokens.
  rewrite !orb_true_iff, Nat.leb_le.
  rewrite !includes_toLowerCase by reflexivity.
  split.
  - intros [[[H | H] | H] | H];
      [left; eexists; split; [|exact H]; simpl; auto .. | right; exact H].
  - intros [[tok [Hin H]] | H]; [|auto].
    simpl in Hin. destruct Hin as [<- | [<- | [<- | []]]]; auto.
Qed.

Lemma matchLoop_first now s : forall gamepads i g,
  firstMatch gamepads i g ->
  matchLoop gamepads now s = (true, matchedUpdate g now s).
Proof.
  induction gamepads as [|slot rest IH]; intros i g (Hnth & Hm & Hbefore).
  - destruct i; discriminate.
  - destruct i as [|i].
    + simpl in Hnth. injection Hnth as ->. simpl. now rewrite Hm.
    + assert (Hrest : firstMatch rest i g).
      { repeat split; auto. intros j g' Hj Hg'.
        apply (Hbefore (S j) g'); [lia | exact Hg']. }
      simpl. destruct slot as [g0|]; [|eauto].
      rewrite (Hbefore 0%nat g0) by (simpl; auto; lia). eauto.
Qed.

Lemma matchLoop_none now s : forall gamepads,
  hasMatch gamepads = false -> matchLoop gamepads now s = (false, s).
Proof.
  induction gamepads as [|[g|] rest IH]; simpl; intros H; auto.
  apply orb_false_iff in H as [-> H]. auto.
Qed.

Lemma hasMatch_first : forall gamepads,
  hasMatch gamepads = true -> exists i g, firstMatch gamepads i g.
Proof.
  induction gamepads as [|slot rest IH]; simpl; intros H; [discriminate|].
  destruct slot as [g0|].
  - destruct (isMatch g0) eqn:Hg0.
    + exists 0%nat, g0. repeat split; auto. intros j g Hj. lia.
    + destruct (IH H) as (i & g & Hn & Hm & Hb). exists (S i), g.
      repeat split; auto. intros [|j] g' Hj Hg'.
      * simpl in Hg'. congruence.
      * apply (Hb j); [lia | exact Hg'].
  - destruct (IH H) as (i & g & Hn & Hm & Hb). exists (S i), g.
    repeat split; auto. intros [|j] g' Hj Hg'.
    * discriminate.
    * apply (Hb j); [lia | exact Hg'].
Qed.

Lemma firstMatch_hasMatch gamepads i g :
  firstMatch gamepads i g -> hasMatch gamepads = true.
Proof.
  intros (Hnth & Hm & _). apply existsb_exists.
  exists (Some g). split; [eapply nth_error_In; eauto | exact Hm].
Qed.

(** A poll with a match is the matched branch on the first match. *)
Lemma pollGamepads_matched gamepads i g now s :
  firstMatch gamepads i g ->
  pollGamepads gamepads now s = matchedUpdate g now s.
Proof.
  intros H. unfold pollGamepads.
  now rewrite (matchLoop_first now s _ _ _ H).
Qed.

(** A poll without a match: the generic branch or the timeout. *)
Lemma pollGamepads_unmatched gamepads now s :
  hasMatch gamepads = false ->
  pollGamepads gamepads now s =
  if existsb notNull gamepads then
    match find notNull gamepads with
    | Some (Some gamepad) =>
        if (2 <=? List.length (axes gamepad))%nat
        then genericUpdate gamepad now s
        else s
    | _ => s
    end
  else if (now - lastUpdate s >? 2000)%Z
       then setConnectionStatus no_device s
       else s.
Proof.
  intros H. unfold pollGamepads.
  now rewrite (matchLoop_none now s _ H).
Qed.

(** Every poll ends in one of the four ways of [PollResult]. *)
Lemma pollGamepads_result gamepads now s :
  PollResult gamepads now s (pollGamepads gamepads now s).
Proof.
  destruct (hasMatch gamepads) eqn:Hm.
  - destruct (hasMatch_first _ Hm) as (i & g & Hfirst).
    rewrite (pollGamepads_matched _ _ _ now s Hfirst). econstructor; eauto.
  - rewrite (pollGamepads_unmatched gamepads now s Hm).
    destruct (existsb notNull gamepads) eqn:Hsome.
    + destruct (find notNull gamepads) as [[g|]|] eqn:Hfind;
        try (now constructor).
      destruct (Nat.leb_spec 2 (List.length (axes g)));
        [now constructor | now constructor].
    + destruct (Z.gtb_spec (now - lastUpdate s) 2000);
        [now constructor | now constructor].
Qed.

(** C7. A filled slot matches exactly when its identifier contains, up to
    the case of letters, one of the tokens [simagic], [p1000], [p2000], or
    it has at least 3 axes; the poll reads the first slot that matches, in
    the order of the enumeration.  "Simagic P2000" matches whatever its
    axes, "Generic USB Gamepad" with 4 axes matches, and "Mouse" with 2
    axes does not: polled alone it goes to the generic branch. *)
Theorem match_heuristic :
  (forall g,
     isMatch g = true <->
     (exists tok, In tok brandTokens /\ contains_ci (id g) tok) \/
     (3 <= List.length (axes g))%nat) /\
  (forall gamepads now s,
     hasMatch gamepads = true ->
     exists i g,
       firstMatch gamepads i g /\
       pollGamepads gamepads now s = matchedUpdate g now s) /\
  (forall gamepads i g now s,
     firstMatch gamepads i g ->
     pollGamepads gamepads now s = matchedUpdate g now s) /\
  (forall ax, isMatch (mkGamepad "Simagic P2000" ax) = true) /\
  (forall a b c d,
     isMatch (mkGamepad "Generic USB Gamepad" [a; b; c; d]) = true) /\
  (forall a b, isMatch (mkGamepad "Mouse" [a; b]) = false) /\
  (forall a b now s,
     connectionStatus (pollGamepads [Some (mkGamepad "Mouse" [a; b])] now s)
       = connected_generic).
Proof.
  split; [exact isMatch_spec|].
  split.
  { intros gamepads now s Hm.
    destruct (hasMatch_first _ Hm) as (i & g & Hfirst).
    exists i, g. split; [exact Hfirst|].
    now apply pollGamepads_matched with (i := i). }
  split; [exact pollGamepads_matched|].
  repeat split.
Qed.

Lemma match_heuristic_witness :
  isMatch (mkGamepad "Simagic P2000" [0; 0.5; -1]) = true /\
  pollGamepads pedalsHalfThrottle 16 (initialState 0 0)
    = matchedUpdate (mkGamepad "Simagic P2000" [0; 0.5; -1]) 16
        (initialState 0 0).
Proof.
  destruct match_heuristic as (Hiff & _ & Hwins & _).
  split.
  - apply Hiff. right. simpl. lia.
  - apply (Hwins pedalsHalfThrottle 1%nat). repeat split.
    intros [|[|j]] g Hj Hg; [discriminate | lia | lia].
Defined.

End Locator.

(** ** The signal normalizer *)

Section Normalizer.

Local Open Scope Q_scope.

Lemma percent_range a :
  -1 <= a <= 1 -> 0 <= ((a + 1) / 2) * 100 <= 100.
Proof.
  intros [Hlo Hhi].
  assert (E : ((a + 1) / 2) * 100 == 50 * (a + 1)) by field.
  rewrite E. split; lra.
Qed.

Lemma newThrottle_formula a stored :
  ~ (a == 0 /\ stored == 0) ->
  newThrottle a stored = ((a + 1) / 2) * 100.
Proof.
  intros H. unfold newThrottle.
  destruct (Qeq_bool a 0) eqn:Ha; [|reflexivity].
  destruct (Qeq_bool stored 0) eqn:Hs; [|reflexivity].
  exfalso. apply H. split; now apply Qeq_bool_eq.
Qed.

Lemma newBrake_formula a stored :
  ~ (a == 0 /\ stored == 0) ->
  newBrake a stored = ((a + 1) / 2) * 100.
Proof. exact (newThrottle_formula a stored). Qed.

Lemma newThrottle_zero a stored :
  a == 0 -> stored == 0 -> newThrottle a stored = 0.
Proof.
  intros Ha Hs. unfold newThrottle.
  now rewrite (Qeq_eq_bool _ _ Ha), (Qeq_eq_bool _ _ Hs).
Qed.

Lemma newBrake_zero a stored :
  a == 0 -> stored == 0 -> newBrake a stored = 0.
Proof. exact (newThrottle_zero a stored). Qed.

(** What the matched branch stores for the pedals, told from what the
    callback holds in its closure: the formula unless the axis reads 0
    while the value held is 0, and 0 in that case. *)
Lemma matched_pedals_held gamepads i g now s :
  firstMatch gamepads i g ->
  (~ (throttleAxis g == 0 /\ closureThrottle s == 0) ->
   throttle (pollGamepads gamepads now s)
     = ((throttleAxis g + 1) / 2) * 100) /\
  (throttleAxis g == 0 -> closureThrottle s == 0 ->
   throttle (pollGamepads gamepads now s) = 0) /\
  (~ (brakeAxis g == 0 /\ closureBrake s == 0) ->
   brake (pollGamepads gamepads now s) = ((brakeAxis g + 1) / 2) * 100) /\
  (brakeAxis g == 0 -> closureBrake s == 0 ->
   brake (pollGamepads gamepads now s) = 0).
Proof.
  intros Hfirst. rewrite (pollGamepads_matched _ _ _ now s Hfirst).
  cbn [matchedUpdate throttle brake].
  split; [intros Hnz; apply (newThrottle_formula _ _ Hnz)|].
  split; [intros Ha Hs; apply (newThrottle_zero _ _ Ha Hs)|].
  split; [intros Hnz; apply (newBrake_formula _ _ Hnz)|].
  intros Ha Hs; apply (newBrake_zero _ _ Ha Hs).
Qed.

(** While the closure of the poll callback is current, the guard sees the
    stored percent: the pedals follow the formula unless the axis reads 0
    while the stored percent is 0, and stay at 0 in that case. *)
Lemma matched_pedals_fresh gamepads i g now s :
  closureFresh s ->
  firstMatch gamepads i g ->
  (-1 <= throttleAxis g <= 1 ->
   ~ (throttleAxis g == 0 /\ throttle s == 0) ->
   throttle (pollGamepads gamepads now s) = ((throttleAxis g + 1) / 2) * 100 /\
   0 <= throttle (pollGamepads gamepads now s) <= 100) /\
  (-1 <= brakeAxis g <= 1 ->
   ~ (brakeAxis g == 0 /\ brake s == 0) ->
   brake (pollGamepads gamepads now s) = ((brakeAxis g + 1) / 2) * 100 /\
   0 <= brake (pollGamepads gamepads now s) <= 100) /\
  (throttleAxis g == 0 -> throttle s == 0 ->
   throttle (pollGamepads gamepads now s) = 0) /\
  (brakeAxis g == 0 -> brake s == 0 ->
   brake (pollGamepads gamepads now s) = 0).
Proof.
  intros [Ft Fb] Hfirst.
  destruct (matched_pedals_held gamepads i g now s Hfirst)
    as (Ht & Ht0 & Hb & Hb0).
  rewrite Ft in Ht, Ht0. rewrite Fb in Hb, Hb0.
  split; [|split; [|split; assumption]].
  - intros Hrange Hnz. rewrite (Ht Hnz). split; [reflexivity|].
    now apply percent_range.
  - intros Hrange Hnz. rewrite (Hb Hnz). split; [reflexivity|].
    now apply percent_range.
Qed.

Lemma step_closureFresh e s :
  (forall t, eventTime e = Some t -> t <> lastUpdate s) ->
  closureFresh s -> closureFresh (step e s).
Proof.
  intros Ht [Ft Fb]. unfold closureFresh.
  destruct e as [gamepads now| |now]; cbn [step].
  - specialize (Ht now eq_refl).
    destruct (pollGamepads_result gamepads now s);
      cbn [matchedUpdate genericUpdate setConnectionStatus throttle brake
           closureThrottle closureBrake];
      unfold recapture;
      try (destruct (Z.eqb_spec now (lastUpdate s)); [contradiction|]);
      auto.
  - auto.
  - cbn [refresh setLastUpdate setConnectionStatus throttle brake
         closureThrottle closureBrake lastUpdate].
    unfold recapture. destruct (now =? lastUpdate s)%Z; auto.
Qed.

(** From mount, while every clock reading is later than the one before,
    the closure of the poll callback is current: each update of
    [lastUpdate] then changes it, and the poll effect runs again. *)
Lemma run_closureFresh es : forall t s,
  clockAdvances t es = true ->
  (lastUpdate s <= t)%Z ->
  closureFresh s -> closureFresh (run es s).
Proof.
  induction es as [|e es IH]; intros t s Hadv Hlo Hs; [exact Hs|].
  cbn [run fold_left]. fold (run es (step e s)).
  cbn [clockAdvances] in Hadv.
  destruct (eventTime e) as [t'|] eqn:Et.
  - apply andb_true_iff in Hadv as [Hlt Hadv]. apply Z.ltb_lt in Hlt.
    apply (IH t'); [exact Hadv | |].
    + destruct e as [gamepads now| |now]; cbn [eventTime] in Et;
        try discriminate; injection Et as ->; cbn [step].
      * destruct (pollGamepads_result gamepads t' s); cbn; lia.
      * cbn. lia.
    + apply step_closureFresh; [|exact Hs].
      intros t0 Ht0. rewrite Et in Ht0. injection Ht0 as <-. lia.
  - apply (IH t); [exact Hadv | |].
    + destruct e; cbn [eventTime] in Et; try discriminate. exact Hlo.
    + apply step_closureFresh; [|exact Hs].
      intros t0 Ht0. rewrite Et in Ht0. discriminate.
Qed.

(** C2. The guard of the matched branch reads the stored percent through
    the closure of the poll callback, which is not rebuilt when a poll
    stores a reading at a clock reading equal to [lastUpdate].  After such
    a poll at full throttle and brake the cells hold 100 while the closure
    holds 0; on the next poll both axes read 0, within [-1, 1], and the
    stored percents are not 0, yet the poll stores 0 where
    [((0 + 1) / 2) * 100] is 50. *)
Theorem stale_guard_breaks_formula :
  firstMatch (pedalsWith 0 0) 0 (mkGamepad "Simagic P2000" [0; 0; 0]) /\
  throttleAxis (mkGamepad "Simagic P2000" [0; 0; 0]) == 0 /\
  brakeAxis (mkGamepad "Simagic P2000" [0; 0; 0]) == 0 /\
  throttle staleAtFullThrottle == 100 /\
  brake staleAtFullThrottle == 100 /\
  closureThrottle staleAtFullThrottle == 0 /\
  closureBrake staleAtFullThrottle == 0 /\
  throttle (pollGamepads (pedalsWith 0 0) 1016 staleAtFullThrottle) == 0 /\
  brake (pollGamepads (pedalsWith 0 0) 1016 staleAtFullThrottle) == 0 /\
  ~ throttle (pollGamepads (pedalsWith 0 0) 1016 staleAtFullThrottle)
      == ((0 + 1) / 2) * 100 /\
  ~ brake (pollGamepads (pedalsWith 0 0) 1016 staleAtFullThrottle)
      == ((0 + 1) / 2) * 100.
Proof.
  split.
  { repeat split. intros j g Hj. lia. }
  repeat split; try reflexivity; discriminate.
Qed.

(** C4. For the same reason the guard can miss a stored percent of 0: after
    a poll at full throttle and brake, a poll that reads the pedals
    released at the same clock reading stores 0 and leaves the closure at
    100; on the next poll both axes read exactly 0 and the stored percents
    are 0, yet the poll stores 50. *)
Theorem stale_guard_breaks_debounce :
  firstMatch (pedalsWith 0 0) 0 (mkGamepad "Simagic P2000" [0; 0; 0]) /\
  throttleAxis (mkGamepad "Simagic P2000" [0; 0; 0]) == 0 /\
  brakeAxis (mkGamepad "Simagic P2000" [0; 0; 0]) == 0 /\
  throttle staleAtRelease == 0 /\
  brake staleAtRelease == 0 /\
  closureThrottle staleAtRelease == 100 /\
  closureBrake staleAtRelease == 100 /\
  throttle (pollGamepads (pedalsWith 0 0) 1032 staleAtRelease) == 50 /\
  brake (pollGamepads (pedalsWith 0 0) 1032 staleAtRelease) == 50 /\
  ~ throttle (pollGamepads (pedalsWith 0 0) 1032 staleAtRelease) == 0 /\
  ~ brake (pollGamepads (pedalsWith 0 0) 1032 staleAtRelease) == 0.
Proof.
  split.
  { repeat split. intros j g Hj. lia. }
  repeat split; try reflexivity; discriminate.
Qed.

Lemma pedalsHalfThrottle_first :
  firstMatch pedalsHalfThrottle 1 (mkGamepad "Simagic P2000" [0; 0.5; -1]).
Proof.
  repeat split.
  intros [|[|j]] g Hj Hg; [discriminate | lia | lia].
Defined.

Lemma pedalsAtRest_first :
  firstMatch pedalsAtRest 0 (mkGamepad "SIMAGIC pedals" [0.5; 0; 0]).
Proof.
  repeat split. intros j g Hj. lia.
Defined.

End Normalizer.

(** ** The history buffer *)

Section History.

Local Open Scope list_scope.
Local Open Scope nat_scope.

Lemma appendHistory_length item prev :
  List.length prev <= maxHistory ->
  List.length (appendHistory item prev) <= maxHistory.
Proof.
  intros H. unfold appendHistory.
  destruct (Nat.ltb_spec maxHistory (List.length (prev ++ [item])))
    as [Hgt|Hle].
  - rewrite length_app in Hgt. simpl in Hgt.
    destruct prev as [|x prev]; simpl in *; [lia|].
    rewrite length_app. simpl. lia.
  - exact Hle.
Qed.

Lemma tl_skipn (A : Type) (k : nat) : forall l : list A,
  tl (skipn k l) = skipn (S k) l.
Proof.
  induction k as [|k IH]; intros [|x l]; try reflexivity.
  apply IH.
Qed.

(** Appending to the last [maxHistory] entries of [l] keeps the last
    [maxHistory] entries of the longer list. *)
Lemma appendHistory_lastN item l :
  appendHistory item (lastN maxHistory l) = lastN maxHistory (l ++ [item]).
Proof.
  unfold appendHistory, lastN.
  rewrite !length_app, length_skipn. cbn [List.length].
  destruct (Nat.le_gt_cases (List.length l) (maxHistory - 1)) as [Hshort|Hlong].
  - unfold maxHistory in *.
    replace (List.length l - 200) with 0 by lia.
    replace (List.length l + 1 - 200) with 0 by lia.
    cbn [skipn].
    destruct (Nat.ltb_spec 200 (List.length l - 0 + 1)); [lia | reflexivity].
  - unfold maxHistory in *.
    destruct (Nat.ltb_spec 200 (List.length l - (List.length l - 200) + 1));
      [|lia].
    replace (List.length l + 1 - 200) with (S (List.length l - 200)) by lia.
    rewrite skipn_app.
    replace (S (List.length l - 200) - List.length l) with 0 by lia.
    change (skipn 0 [item]) with [item].
    rewrite <- tl_skipn.
    destruct (skipn (List.length l - 200) l) eqn:E; [|reflexivity].
    apply (f_equal (@List.length _)) in E. rewrite length_skipn in E.
    simpl in E. lia.
Qed.

Lemma appendAll_snoc items item h :
  appendAll (items ++ [item]) h = appendHistory item (appendAll items h).
Proof. unfold appendAll. now rewrite fold_left_app. Qed.

(** From the empty buffer, the history is the last [maxHistory] items
    appended: the window slides, the oldest entry leaves first. *)
Lemma appendAll_lastN items :
  appendAll items [] = lastN maxHistory items.
Proof.
  induction items as [|item items IH] using rev_ind.
  - reflexivity.
  - now rewrite appendAll_snoc, IH, appendHistory_lastN.
Qed.

Lemma pollGamepads_history gamepads now s :
  history (pollGamepads gamepads now s) = history s.
Proof. destruct (pollGamepads_result gamepads now s); reflexivity. Qed.

Lemma step_history e s :
  history (step e s) =
  match e with
  | HistoryTick =>
      appendHistory (HistoryItem.mk (throttle s) (brake s) (steering s))
        (history s)
  | _ => history s
  end.
Proof.
  destruct e; cbn [step]; [apply pollGamepads_history | reflexivity ..].
Qed.

Lemma run_history_length es : forall s,
  List.length (history s) <= maxHistory ->
  List.length (history (run es s)) <= maxHistory.
Proof.
  induction es as [|e es IH]; intros s H; [exact H|].
  cbn [run fold_left]. apply IH. rewrite step_history.
  destruct e; auto using appendHistory_length.
Qed.

(** The history of a run is the history it started from with the items its
    ticks recorded appended in order. *)
Lemma run_history_recorded es : forall s,
  history (run es s) = appendAll (recorded es s) (history s).
Proof.
  induction es as [|e es IH]; intros s; [reflexivity|].
  cbn [run fold_left recorded]. fold (run es (step e s)).
  rewrite IH, step_history. unfold appendAll. rewrite fold_left_app.
  destruct e; reflexivity.
Qed.

(** C1. Whatever the component goes through after mount, the history never
    holds more than 200 entries; and eviction is first in, first out: once
    the history ticks of a run have appended 201 items, the first entry of
    the history is the item appended second. *)
Theorem history_bounded_fifo tUpdate tStart es :
  List.length (history (run es (initialState tUpdate tStart))) <= 200 /\
  (List.length (recorded es (initialState tUpdate tStart)) = 201 ->
   hd_error (history (run es (initialState tUpdate tStart)))
     = nth_error (recorded es (initialState tUpdate tStart)) 1).
Proof.
  split.
  - apply run_history_length. simpl. unfold maxHistory. lia.
  - intros Hlen. rewrite run_history_recorded. cbn [initialState history].
    rewrite appendAll_lastN. unfold lastN, maxHistory. rewrite Hlen.
    change (201 - 200) with 1.
    destruct (recorded es (initialState tUpdate tStart)) as [|x [|y l]];
      reflexivity.
Qed.

Lemma history_bounded_fifo_witness :
  List.length (recorded sweepRun (initialState 0 0)) = 201 /\
  hd_error (history (run sweepRun (initialState 0 0)))
    = nth_error (recorded sweepRun (initialState 0 0)) 1.
Proof.
  split.
  - vm_compute. reflexivity.
  - apply history_bounded_fifo. vm_compute. reflexivity.
Defined.

End History.

(** ** The renderer *)

Section Renderer.

Local Open Scope string_scope.
Local Open Scope list_scope.

(** What the effect paints before it looks at the history. *)
Lemma draw_prefix canvas history :
  context2d canvas = true ->
  exists series,
    draw (Some canvas) history
      = drawBackground canvas ++ drawGrid canvas ++ series.
Proof.
  intros Hctx. cbn [draw]. rewrite Hctx. eexists. reflexivity.
Qed.

(** With two samples or more the three series follow the grid, throttle
    first, then brake, then steering. *)
Lemma draw_series canvas history :
  context2d canvas = true ->
  (2 <= List.length history)%nat ->
  draw (Some canvas) history
    = drawBackground canvas ++ drawGrid canvas ++
      drawAxis canvas history "#00c73cff" HistoryItem.throttle ++
      drawAxis canvas history "#ef4444" HistoryItem.brake ++
      drawAxis canvas history "#3b82f6" HistoryItem.steering.
Proof.
  intros Hctx Hlen. cbn [draw]. rewrite Hctx.
  destruct (Nat.ltb_spec (List.length history) 2); [lia | reflexivity].
Qed.

(** C8. With fewer than 2 samples in the history the effect paints the
    background and the grid lines and nothing else: on a canvas with a
    context the calls are exactly those of the background and of the grid,
    the only stroke colour set is the grid's, and the five strokes are the
    five grid lines; without a canvas or a context nothing is painted.  The
    effect reads the history through [forEachPoint] only, which visits the
    entries that exist: no index is computed, none can be out of range. *)
Theorem draw_short_history canvasRef history :
  (List.length history < 2)%nat ->
  draw canvasRef history =
    match canvasRef with
    | Some canvas =>
        if context2d canvas
        then drawBackground canvas ++ drawGrid canvas
        else []
    | None => []
    end /\
  (forall color, In (strokeStyle color) (draw canvasRef history) ->
     color = "#2a2a2a") /\
  (strokes (draw canvasRef history) <= 5)%nat.
Proof.
  intros Hlen.
  assert (E : draw canvasRef history =
    match canvasRef with
    | Some canvas =>
        if context2d canvas
        then drawBackground canvas ++ drawGrid canvas
        else []
    | None => []
    end).
  { destruct canvasRef as [canvas|]; [|reflexivity]. cbn [draw].
    destruct (context2d canvas); [|reflexivity].
    destruct (Nat.ltb_spec (List.length history) 2); [|lia].
    now rewrite app_nil_r. }
  rewrite E. split; [reflexivity|].
  destruct canvasRef as [canvas|];
    [|split; [intros c [] | unfold strokes; simpl; lia]].
  destruct (context2d canvas);
    [|split; [intros c [] | unfold strokes; simpl; lia]].
  split.
  - intros color Hin. simpl in Hin.
    repeat (destruct Hin as [Hin | Hin]; [try discriminate Hin|]);
      try contradiction.
    now injection Hin as <-.
  - cbv [strokes drawBackground drawGrid gridLine flat_map seq app filter
         List.length]. lia.
Qed.

Lemma draw_short_history_witness :
  draw (Some (mkCanvas 1200 300 true)) [HistoryItem.mk 50 0 0]
    = drawBackground (mkCanvas 1200 300 true)
      ++ drawGrid (mkCanvas 1200 300 true) /\
  strokes (draw (Some (mkCanvas 1200 300 true)) [HistoryItem.mk 50 0 0])
    = 5%nat.
Proof.
  split.
  - apply (draw_short_history (Some (mkCanvas 1200 300 true))
             [HistoryItem.mk 50 0 0]).
    simpl. lia.
  - reflexivity.
Defined.

End Renderer.

(** ** The refresh button *)

Section Refresh.

(** C9. A click on refresh sets the connection status to ['polling'] and the
    time of the last update to now; the history and the session statistics
    (as every other cell) keep their value. *)
Theorem refresh_frame now s :
  connectionStatus (refresh now s) = polling /\
  lastUpdate (refresh now s) = now /\
  history (refresh now s) = history s /\
  sessionStats (refresh now s) = sessionStats s /\
  throttle (refresh now s) = throttle s /\
  brake (refresh now s) = brake s /\
  steering (refresh now s) = steering s /\
  steeringAngle (refresh now s) = steeringAngle s /\
  debugInfo (refresh now s) = debugInfo s.
Proof. repeat split. Qed.

End Refresh.

(** ** The connection state *)

Section Connection.

Local Open Scope Z_scope.

Lemma step_lastUpdate e s :
  lastUpdate (step e s) = lastUpdate s \/
  eventTime e = Some (lastUpdate (step e s)).
Proof.
  destruct e as [gamepads now| |now]; cbn [step eventTime].
  - destruct (pollGamepads_result gamepads now s); auto.
  - auto.
  - auto.
Qed.

(** Along a run whose clock does not go back, the time of the last update
    stays above any bound it was above. *)
Lemma run_lastUpdate_lower es : forall s lo b,
  chronological lo es = true ->
  b <= lo -> b <= lastUpdate s -> b <= lastUpdate (run es s).
Proof.
  induction es as [|e es IH]; intros s lo b Hchr Hlo Hs; [exact Hs|].
  cbn [run fold_left]. fold (run es (step e s)).
  cbn [chronological] in Hchr.
  destruct (step_lastUpdate e s) as [Hsame | Hset].
  - destruct (eventTime e) as [t'|].
    + apply andb_true_iff in Hchr as [Hle Hchr]. apply Z.leb_le in Hle.
      apply (IH _ t'); [exact Hchr | lia | lia].
    + apply (IH _ lo); [exact Hchr | lia | lia].
  - rewrite Hset in Hchr.
    apply andb_true_iff in Hchr as [Hle Hchr]. apply Z.leb_le in Hle.
    apply (IH _ (lastUpdate (step e s))); [exact Hchr | lia | lia].
Qed.

Lemma chronological_tail lo e es :
  chronological lo (e :: es) = true -> exists lo', chronological lo' es = true.
Proof.
  cbn [chronological]. destruct (eventTime e) as [t'|]; [|eauto].
  intros H. apply andb_true_iff in H as [_ H]. eauto.
Qed.

(** The time of the last update is never before the last match. *)
Lemma lastMatch_le_lastUpdate es : forall s lo t,
  chronological lo es = true ->
  lastMatchTime es = Some t ->
  t <= lastUpdate (run es s).
Proof.
  induction es as [|e es IH]; intros s lo t Hchr Hlast; [discriminate|].
  cbn [run fold_left]. fold (run es (step e s)).
  cbn [lastMatchTime] in Hlast.
  destruct (lastMatchTime es) as [t0|] eqn:Hes.
  - injection Hlast as <-.
    destruct (chronological_tail _ _ _ Hchr) as [lo' Hchr'].
    eapply IH; eauto.
  - destruct e as [gamepads now| |now]; try discriminate.
    destruct (hasMatch gamepads) eqn:Hm; [|discriminate].
    injection Hlast as <-.
    cbn [chronological eventTime] in Hchr.
    apply andb_true_iff in Hchr as [_ Hchr].
    apply (run_lastUpdate_lower _ _ now _ Hchr); [lia|].
    cbn [step]. destruct (hasMatch_first _ Hm) as (i & g & Hfirst).
    rewrite (pollGamepads_matched _ _ _ now s Hfirst). simpl. lia.
Qed.

(** The only event that sets ['no-device'] is a poll that finds every slot
    empty more than 2000 ms after the last update. *)
Lemma step_no_device e s :
  connectionStatus s <> no_device ->
  connectionStatus (step e s) = no_device ->
  exists gamepads now,
    e = Poll gamepads now /\
    existsb notNull gamepads = false /\
    2000 < now - lastUpdate s.
Proof.
  intros Hs Hstep. destruct e as [gamepads now| |now]; cbn [step] in Hstep.
  - destruct (pollGamepads_result gamepads now s);
      try discriminate; try contradiction.
    exists gamepads, now. auto.
  - contradiction.
  - discriminate.
Qed.

(** A step whose clock reading is at most 2000 ms after the last update
    does not set ['no-device']. *)
Lemma step_within_timeout e s lo hi :
  (forall t, eventTime e = Some t -> lo <= t <= hi) ->
  hi <= lastUpdate s + 2000 ->
  lo <= lastUpdate s ->
  connectionStatus s <> no_device ->
  connectionStatus (step e s) <> no_device /\ lo <= lastUpdate (step e s).
Proof.
  intros Ht Hhi Hlo Hs. split.
  - intros Hnd.
    destruct (step_no_device e s Hs Hnd) as (gamepads & now & -> & _ & Hgt).
    specialize (Ht now eq_refl). lia.
  - destruct (step_lastUpdate e s) as [-> | Hset]; [exact Hlo|].
    specialize (Ht _ Hset). lia.
Qed.

Lemma visited_within_timeout lo hi es : forall s,
  timesWithin lo hi es ->
  hi <= lo + 2000 ->
  lo <= lastUpdate s ->
  connectionStatus s <> no_device ->
  Forall (fun s' => connectionStatus s' <> no_device) (visited es s) /\
  connectionStatus (run es s) <> no_device.
Proof.
  induction es as [|e es IH]; intros s Hin Hhi Hlo Hs.
  - split; [constructor | exact Hs].
  - inversion Hin as [|? ? He Hes]; subst.
    destruct (step_within_timeout e s lo hi He) as [Hs' Hlo'];
      [lia | exact Hlo | exact Hs |].
    destruct (IH (step e s) Hes Hhi Hlo' Hs') as [Hall Hrun].
    split; [constructor; assumption | exact Hrun].
Qed.

(** C3. The connection status becomes ['no-device'] only when at least
    2000 ms have passed since the last successful match: in a run from
    mount whose clock does not go back, an event that moves the status to
    ['no-device'] is a poll, it comes more than 2000 ms after the last
    update and at least 2000 ms after the last poll that found a match.  In
    particular, after a match at [t] no event up to [t + 1999] sets
    ['no-device'], and the match that follows gives ['connected']. *)
Theorem no_device_needs_timeout :
  (forall tUpdate tStart es e t,
     chronological tUpdate es = true ->
     connectionStatus (run es (initialState tUpdate tStart)) <> no_device ->
     connectionStatus (step e (run es (initialState tUpdate tStart)))
       = no_device ->
     lastMatchTime es = Some t ->
     exists gamepads now,
       e = Poll gamepads now /\ 2000 <= now - t) /\
  (forall s gamepads t es gamepads' now',
     hasMatch gamepads = true ->
     timesWithin t (t + 1999) es ->
     hasMatch gamepads' = true ->
     Forall (fun s' => connectionStatus s' <> no_device)
       (visited es (pollGamepads gamepads t s)) /\
     connectionStatus
       (pollGamepads gamepads' now' (run es (pollGamepads gamepads t s)))
       = connected).
Proof.
  split.
  - intros tUpdate tStart es e t Hchr Hs Hstep Hlast.
    destruct (step_no_device e _ Hs Hstep) as (gamepads & now & -> & _ & Hgt).
    exists gamepads, now. split; [reflexivity|].
    pose proof (lastMatch_le_lastUpdate es (initialState tUpdate tStart)
                  _ _ Hchr Hlast). lia.
  - intros s gamepads t es gamepads' now' Hm Hin Hm'.
    destruct (hasMatch_first _ Hm) as (i & g & Hfirst).
    destruct (hasMatch_first _ Hm') as (i' & g' & Hfirst').
    rewrite (pollGamepads_matched _ _ _ t s Hfirst).
    rewrite (pollGamepads_matched _ _ _ now' _ Hfirst').
    split; [|reflexivity].
    apply (visited_within_timeout t (t + 1999) es); auto.
    + lia.
    + simpl. lia.
    + discriminate.
Qed.

Lemma no_device_needs_timeout_witness :
  (exists gamepads now,
     Poll [] 2101 = Poll gamepads now /\ 2000 <= now - 100) /\
  Forall (fun s' => connectionStatus s' <> no_device)
    (visited shortGapRun (pollGamepads pedalsAtRest 100 (initialState 0 0))) /\
  connectionStatus
    (pollGamepads pedalsAtRest 2116
       (run shortGapRun (pollGamepads pedalsAtRest 100 (initialState 0 0))))
    = connected.
Proof.
  destruct no_device_needs_timeout as [Honly Hgap].
  split.
  - apply (Honly 0 0 [Poll pedalsAtRest 100] (Poll [] 2101) 100).
    + reflexivity.
    + discriminate.
    + reflexivity.
    + reflexivity.
  - apply (Hgap (initialState 0 0) pedalsAtRest 100 shortGapRun
             pedalsAtRest 2116).
    + reflexivity.
    + unfold timesWithin, shortGapRun.
      repeat apply Forall_cons; try apply Forall_nil;
        simpl; intros t H; try discriminate H; injection H as <-; lia.
    + reflexivity.
Defined.

Lemma fewAxes_poll_idle gamepads now s :
  fewAxesPoll gamepads -> pollGamepads gamepads now s = s.
Proof.
  intros (Hsome & Hm & Hfew).
  rewrite (pollGamepads_unmatched gamepads now s Hm), Hsome.
  destruct (find notNull gamepads) as [[g|]|] eqn:Hfind; try reflexivity.
  apply find_some in Hfind as [Hin _]. specialize (Hfew g Hin).
  destruct (Nat.leb_spec 2 (List.length (axes g))); [lia | reflexivity].
Qed.

Lemma fewAxes_visited es s :
  Forall fewAxesCycle es -> Forall (fun s' => s' = s) (visited es s).
Proof.
  induction 1 as [|e es He Hes IH]; [constructor|].
  destruct e as [gamepads now| |now]; try contradiction.
  cbn [visited step]. rewrite (fewAxes_poll_idle _ now s He).
  constructor; [reflexivity | exact IH].
Qed.

(** C10. While every poll finds some slot filled, no match, and fewer than
    2 axes on every filled slot, the polls leave the cells as they are: the
    status never becomes ['no-device'], whatever the clock reads, since the
    branch of the timeout is not reached. *)
Theorem few_axes_never_no_device es s :
  Forall fewAxesCycle es ->
  connectionStatus s <> no_device ->
  Forall (fun s' => connectionStatus s' <> no_device) (visited es s) /\
  run es s = s.
Proof.
  intros Hes Hs. split.
  - eapply Forall_impl; [|apply (fewAxes_visited es s Hes)].
    intros s' ->. exact Hs.
  - induction Hes as [|e es He Hes IH]; [reflexivity|].
    destruct e as [gamepads now| |now]; try contradiction.
    cbn [run fold_left step]. rewrite (fewAxes_poll_idle _ now s He).
    exact IH.
Qed.

Lemma few_axes_never_no_device_witness :
  Forall (fun s' => connectionStatus s' <> no_device)
    (visited loneAxisRun (pollGamepads pedalsAtRest 100 (initialState 0 0))) /\
  run loneAxisRun (pollGamepads pedalsAtRest 100 (initialState 0 0))
    = pollGamepads pedalsAtRest 100 (initialState 0 0).
Proof.
  apply few_axes_never_no_device.
  - unfold loneAxisRun.
    repeat apply Forall_cons; try apply Forall_nil;
      (split; [reflexivity | split; [reflexivity |]]);
      simpl; intros g H;
      repeat (destruct H as [H | H];
              [try discriminate H; injection H as <-; simpl; lia |]);
      contradiction.
  - discriminate.
Defined.

End Connection.

(** ** The session statistics *)

Section Peaks.

Local Open Scope Q_scope.

Lemma runningMax_nil p : runningMax p [] p.
Proof.
  repeat split; [apply Qle_refl | constructor | left; reflexivity].
Qed.

Lemma runningMax_cons p0 x xs p :
  runningMax (Qmax p0 x) xs p -> runningMax p0 (x :: xs) p.
Proof.
  intros (Hlo & Hall & Hhit).
  pose proof (Q.le_max_l p0 x) as Hl.
  pose proof (Q.le_max_r p0 x) as Hr.
  repeat split.
  - eapply Qle_trans; eauto.
  - constructor; [eapply Qle_trans; eauto | exact Hall].
  - destruct Hhit as [Hp | Hex]; [|right; now constructor 2].
    destruct (Q.max_spec p0 x) as [[_ E] | [_ E]]; rewrite E in Hp.
    + right. now constructor 1.
    + left. exact Hp.
Qed.

(** The cells [sessionStats] of a poll that finds no match keep their
    value: the generic branch and the timeout do not write them. *)
Lemma unmatched_sessionStats gamepads now s :
  hasMatch gamepads = false ->
  sessionStats (pollGamepads gamepads now s) = sessionStats s.
Proof.
  intros Hm. destruct (pollGamepads_result gamepads now s) as [i g Hf| | |];
    try reflexivity.
  apply firstMatch_hasMatch in Hf. congruence.
Qed.

(** No event lowers a peak. *)
Lemma step_peaks_monotone e s :
  peakThrottle (sessionStats s) <= peakThrottle (sessionStats (step e s)) /\
  peakBrake (sessionStats s) <= peakBrake (sessionStats (step e s)) /\
  peakSteering (sessionStats s) <= peakSteering (sessionStats (step e s)).
Proof.
  destruct e as [gamepads now| |now]; cbn [step];
    try (repeat split; apply Qle_refl).
  destruct (pollGamepads_result gamepads now s);
    try (repeat split; apply Qle_refl).
  cbn. repeat split; apply Q.le_max_l.
Qed.

Lemma run_peaks_monotone es : forall s,
  peakThrottle (sessionStats s) <= peakThrottle (sessionStats (run es s)) /\
  peakBrake (sessionStats s) <= peakBrake (sessionStats (run es s)) /\
  peakSteering (sessionStats s) <= peakSteering (sessionStats (run es s)).
Proof.
  induction es as [|e es IH]; intros s.
  - repeat split; apply Qle_refl.
  - cbn [run fold_left]. fold (run es (step e s)).
    destruct (step_peaks_monotone e s) as (H1 & H2 & H3).
    destruct (IH (step e s)) as (I1 & I2 & I3).
    repeat split; eapply Qle_trans; eauto.
Qed.

(** Over the polls that find a match, each peak is the running maximum of
    the readings stored. *)
Lemma peaks_running_max_matched es : forall s,
  runningMax (peakThrottle (sessionStats s))
    (samples hasMatch throttle es s)
    (peakThrottle (sessionStats (run es s))) /\
  runningMax (peakBrake (sessionStats s))
    (samples hasMatch brake es s)
    (peakBrake (sessionStats (run es s))) /\
  runningMax (peakSteering (sessionStats s))
    (samples hasMatch steeringSize es s)
    (peakSteering (sessionStats (run es s))).
Proof.
  induction es as [|e es IH]; intros s.
  - split; [|split]; apply runningMax_nil.
  - cbn [run fold_left samples]. fold (run es (step e s)).
    destruct (IH (step e s)) as (I1 & I2 & I3).
    destruct e as [gamepads now| |now]; cbn [app];
      [|split; [exact I1 | split; [exact I2 | exact I3]] ..].
    destruct (hasMatch gamepads) eqn:Hm; cbn [app].
    + destruct (hasMatch_first _ Hm) as (i & g & Hfirst).
      cbn [step] in *.
      rewrite (pollGamepads_matched _ _ _ now s Hfirst) in *.
      split; [|split]; apply runningMax_cons; assumption.
    + cbn [step] in *.
      rewrite (unmatched_sessionStats gamepads now s Hm) in *.
      split; [exact I1 | split; [exact I2 | exact I3]].
Qed.

(** C5. The peaks are not the running maxima over all the readings stored:
    a poll that takes the generic branch stores a throttle of 100 and
    leaves [peakThrottle] at 0, so the peak is below a reading seen. *)
Theorem generic_poll_skips_peaks :
  storesReading mouseFullThrottle = true /\
  connectionStatus (pollGamepads mouseFullThrottle 16 (initialState 0 0))
    = connected_generic /\
  throttle (pollGamepads mouseFullThrottle 16 (initialState 0 0)) == 100 /\
  peakThrottle
    (sessionStats (pollGamepads mouseFullThrottle 16 (initialState 0 0)))
    == 0 /\
  ~ runningMax 0
      (samples storesReading throttle [Poll mouseFullThrottle 16]
         (initialState 0 0))
      (peakThrottle
         (sessionStats (run [Poll mouseFullThrottle 16] (initialState 0 0)))).
Proof.
  repeat split; try reflexivity.
  intros (_ & Hall & _). inversion Hall as [|x l Hx _]; subst.
  revert Hx. vm_compute. intros H. apply H. reflexivity.
Qed.

End Peaks.

(** ** The generic branch *)

Section Generic.

Local Open Scope Q_scope.

Lemma unmatched_slot gamepads g :
  hasMatch gamepads = false ->
  In (Some g) gamepads ->
  isMatch g = false.
Proof.
  intros Hm Hin. destruct (isMatch g) eqn:E; [|reflexivity].
  assert (hasMatch gamepads = true); [|congruence].
  apply existsb_exists. exists (Some g). auto.
Qed.

(** In the generic branch the gamepad read has exactly two axes; the brake
    is the inverted reading of axis 0, and the throttle is the inverted
    reading of axis 1 unless that axis reads 0, in which case [|| -1]
    replaces the reading and the throttle is 100. *)
Lemma generic_pedals gamepads g now s :
  hasMatch gamepads = false ->
  find notNull gamepads = Some (Some g) ->
  (2 <= List.length (axes g))%nat ->
  exists c a,
    axes g = [c; a] /\
    brake (pollGamepads gamepads now s) == ((1 - c) / 2) * 100 /\
    (~ a == 0 ->
       throttle (pollGamepads gamepads now s) = ((1 - a) / 2) * 100) /\
    (a == 0 -> throttle (pollGamepads gamepads now s) == 100).
Proof.
  intros Hm Hfind Hlen.
  pose proof (find_some _ _ Hfind) as [Hin _].
  pose proof (unmatched_slot _ _ Hm Hin) as Hg.
  unfold isMatch in Hg. rewrite !orb_false_iff in Hg.
  destruct Hg as (_ & Hax). apply Nat.leb_gt in Hax.
  destruct (axes g) as [|c [|a [|b l]]] eqn:Eax; simpl in Hlen, Hax; try lia.
  exists c, a. split; [reflexivity|].
  rewrite (pollGamepads_unmatched gamepads now s Hm).
  assert (Hsome : existsb notNull gamepads = true).
  { apply existsb_exists. exists (Some g). auto. }
  rewrite Hsome, Hfind, Eax.
  cbn [List.length Nat.leb genericUpdate brake throttle]. rewrite Eax.
  cbn [nth_error jsOr truthy orNumber].
  repeat split.
  - destruct (Qeq_bool c 0) eqn:Ec; cbn [negb]; [|reflexivity].
    apply Qeq_bool_eq in Ec. now rewrite Ec.
  - intros Ha. destruct (Qeq_bool a 0) eqn:Ea; [|reflexivity].
    apply Qeq_bool_eq in Ea. contradiction.
  - intros Ha. rewrite (Qeq_eq_bool _ _ Ha). reflexivity.
Qed.

(** C6. The throttle of the generic branch is not [((1 - a) / 2) * 100] at
    [a = 0]: with axis 1 reading exactly 0 the branch stores 100 where the
    formula gives 50. *)
Theorem generic_throttle_at_zero :
  connectionStatus (pollGamepads mouseCentred 16 (initialState 0 0))
    = connected_generic /\
  nth_error (axes (mkGamepad "Mouse" [0.5; 0])) 1 = Some 0 /\
  throttle (pollGamepads mouseCentred 16 (initialState 0 0)) == 100 /\
  ~ throttle (pollGamepads mouseCentred 16 (initialState 0 0))
      == ((1 - 0) / 2) * 100.
Proof.
  repeat split; try reflexivity. discriminate.
Qed.

End Generic.

(** ** Ranges of the cells *)

Section Ranges.

Local Open Scope Q_scope.

Lemma inverted_percent_range a :
  isAxis a -> isPercent (((1 - a) / 2) * 100).
Proof.
  intros [Hlo Hhi]. unfold isPercent.
  assert (E : ((1 - a) / 2) * 100 == 50 * (1 - a)) by field.
  rewrite E. split; lra.
Qed.

Lemma newThrottle_range a stored :
  isAxis a -> isPercent (newThrottle a stored).
Proof.
  intros Ha. unfold newThrottle.
  destruct (Qeq_bool a 0 && Qeq_bool stored 0).
  - split; discriminate.
  - now apply percent_range.
Qed.

Lemma axisOrDefault_range l i d :
  Forall isAxis l -> isAxis d -> isAxis (axisOrDefault l i d).
Proof.
  intros Hl Hd. unfold axisOrDefault.
  destruct (nth_error l i) as [v|] eqn:E; [|exact Hd].
  rewrite Forall_forall in Hl. apply Hl. eapply nth_error_In; eauto.
Qed.

Lemma orNumber_range x d :
  (forall v, x = Some v -> isAxis v) -> isAxis d -> isAxis (orNumber x d).
Proof.
  intros Hx Hd. destruct x as [v|]; [|exact Hd]. simpl.
  destruct (Qeq_bool v 0); [exact Hd | now apply Hx].
Qed.

Lemma nth_error_range l i v :
  Forall isAxis l -> nth_error l i = Some v -> isAxis v.
Proof.
  intros Hl E. rewrite Forall_forall in Hl. apply Hl.
  eapply nth_error_In; eauto.
Qed.

Lemma abs_percent_range a : isAxis a -> isPercent (Qabs a * 100).
Proof.
  intros [Hlo Hhi]. unfold isPercent.
  assert (H1 : Qabs a <= 1) by (apply Qabs_Qle_condition; split; lra).
  pose proof (Qabs_nonneg a). split; lra.
Qed.

Lemma angle_range a : isAxis a -> -450 <= a * 450 <= 450.
Proof. intros [Hlo Hhi]. split; lra. Qed.

Lemma max_range lo hi x y :
  lo <= x <= hi -> lo <= y <= hi -> lo <= Qmax x y <= hi.
Proof.
  intros [Hx1 Hx2] [Hy1 Hy2]. split.
  - eapply Qle_trans; [exact Hx1 | apply Q.le_max_l].
  - now apply Q.max_lub.
Qed.

Lemma matchedUpdate_inRange g now s :
  Forall isAxis (axes g) -> cellsInRange s ->
  cellsInRange (matchedUpdate g now s).
Proof.
  intros Hg (Ht & Hb & Hs & Ha & Hh & Hpt & Hpb & Hps).
  assert (At : isAxis (throttleAxis g))
    by (apply axisOrDefault_range; [exact Hg | split; discriminate]).
  assert (Ab : isAxis (brakeAxis g))
    by (apply axisOrDefault_range; [exact Hg | split; discriminate]).
  assert (As : isAxis (steeringAxis g))
    by (apply axisOrDefault_range; [exact Hg | split; discriminate]).
  unfold cellsInRange.
  cbn [matchedUpdate throttle brake steering steeringAngle history
       sessionStats peakThrottle peakBrake peakSteering].
  refine (conj _ (conj _ (conj _ (conj _ (conj Hh
            (conj _ (conj _ _))))))).
  - apply (newThrottle_range _ _ At).
  - apply (newThrottle_range _ _ Ab).
  - apply (abs_percent_range _ As).
  - apply (angle_range _ As).
  - apply max_range; [exact Hpt | apply (newThrottle_range _ _ At)].
  - apply max_range; [exact Hpb | apply (newThrottle_range _ _ Ab)].
  - apply max_range; [exact Hps|].
    split; [apply Qabs_nonneg|].
    apply Qabs_Qle_condition. apply (angle_range _ As).
Qed.

Lemma genericUpdate_inRange g now s :
  Forall isAxis (axes g) -> cellsInRange s ->
  cellsInRange (genericUpdate g now s).
Proof.
  intros Hg (Ht & Hb & Hs & Ha & Hh & Hpt & Hpb & Hps).
  assert (Hnth : forall i v, nth_error (axes g) i = Some v -> isAxis v)
    by (intros i v; apply nth_error_range; exact Hg).
  assert (A0 : isAxis 0) by (split; discriminate).
  assert (A1 : isAxis (-1)) by (split; discriminate).
  assert (At : isAxis (orNumber (nth_error (axes g) 1) (-1)))
    by (apply orNumber_range; [apply Hnth | exact A1]).
  assert (Ac : isAxis (orNumber (nth_error (axes g) 0) 0))
    by (apply orNumber_range; [apply Hnth | exact A0]).
  assert (Ab : isAxis (orNumber
             (jsOr (nth_error (axes g) 2) (nth_error (axes g) 0)) 0)).
  { apply orNumber_range; [|exact A0]. unfold jsOr.
    destruct (truthy (nth_error (axes g) 2)); apply Hnth. }
  unfold cellsInRange.
  cbn [genericUpdate throttle brake steering steeringAngle history
       sessionStats].
  refine (conj _ (conj _ (conj _ (conj _ (conj Hh
            (conj Hpt (conj Hpb Hps))))))).
  - apply (inverted_percent_range _ At).
  - apply (inverted_percent_range _ Ab).
  - apply (inverted_percent_range _ Ac).
  - apply (angle_range _ Ac).
Qed.

Lemma firstMatch_In gamepads i g :
  firstMatch gamepads i g -> In (Some g) gamepads.
Proof. intros (Hnth & _). eapply nth_error_In; eauto. Qed.

Lemma step_inRange e s :
  eventInRange e -> cellsInRange s -> cellsInRange (step e s).
Proof.
  intros He Hs. destruct e as [gamepads now| |now]; cbn [step].
  - cbn [eventInRange] in He.
    destruct (pollGamepads_result gamepads now s)
      as [i g Hf|g Hm Hfind Hlen| |].
    + apply matchedUpdate_inRange; [|exact Hs].
      apply He. eapply firstMatch_In; eauto.
    + apply genericUpdate_inRange; [|exact Hs].
      apply He. apply (find_some _ _ Hfind).
    + exact Hs.
    + exact Hs.
  - destruct Hs as (Ht & Hb & Hst & Ha & Hh & Hp).
    unfold cellsInRange.
    cbn [historyTick setHistory throttle brake steering steeringAngle
         history sessionStats].
    refine (conj Ht (conj Hb (conj Hst (conj Ha (conj _ Hp))))).
    unfold appendHistory.
    assert (Hall : Forall itemInRange
              (history s ++
               [HistoryItem.mk (throttle s) (brake s) (steering s)])).
    { apply Forall_app. split; [exact Hh|].
      constructor; [|constructor]. exact (conj Ht (conj Hb Hst)). }
    destruct (maxHistory <? _)%nat; [|exact Hall].
    destruct (history s ++ _) as [|x l]; [constructor|].
    now inversion Hall.
  - exact Hs.
Qed.

Lemma run_inRange es : forall s,
  Forall eventInRange es -> cellsInRange s -> cellsInRange (run es s).
Proof.
  induction es as [|e es IH]; intros s Hes Hs; [exact Hs|].
  inversion Hes as [|? ? He Hes']; subst.
  cbn [run fold_left]. apply IH; [exact Hes'|].
  now apply step_inRange.
Qed.

Lemma initialState_inRange tUpdate tStart :
  cellsInRange (initialState tUpdate tStart).
Proof.
  unfold cellsInRange, isPercent. cbn.
  repeat split; try discriminate; constructor.
Qed.

(** X1. While every axis the polls read lies in [-1, 1], the cells stay in
    range from mount on, through any polls, history ticks and refreshes:
    throttle, brake and steering are percentages in [0, 100], the steering
    angle is within 450 degrees either way, every history entry holds
    percentages, and the peaks are within [0, 100] and [0, 450]. *)
Theorem cells_stay_in_range tUpdate tStart es :
  Forall eventInRange es ->
  cellsInRange (run es (initialState tUpdate tStart)).
Proof.
  intros Hes. apply run_inRange; [exact Hes|].
  apply initialState_inRange.
Qed.

Lemma mixedRun_inRange : Forall eventInRange mixedRun.
Proof.
  unfold mixedRun. repeat apply Forall_cons; try apply Forall_nil;
    try exact I; intros g H; simpl in H;
    repeat (destruct H as [H | H];
            [try discriminate H; injection H as <-;
             repeat constructor; discriminate |]);
    contradiction.
Defined.

Lemma cells_stay_in_range_witness :
  cellsInRange (run mixedRun (initialState 0 0)).
Proof. apply cells_stay_in_range. exact mixedRun_inRange. Defined.

End Ranges.

(** ** Where the chart is painted *)

Section Plot.

Local Open Scope list_scope.
Local Open Scope Q_scope.






Lemma forEachPoint_nth canvas dataKey : forall history i j point,
  nth_error history j = Some point ->
  nth_error (forEachPoint canvas dataKey i history) j =
  Some (if (i + j =? 0)%nat
        then moveTo (plotX canvas (i + j)) (plotY canvas (dataKey point))
        else lineTo (plotX canvas (i + j)) (plotY canvas (dataKey point))).
Proof.
  intros hist. induction hist as [|p0 hist IH]; intros i j point Hj.
  - destruct j; discriminate.
  - destruct j as [|j].
    + cbn [nth_error] in Hj. injection Hj as ->.
      rewrite Nat.add_0_r. reflexivity.
    + cbn [nth_error] in Hj. cbn [forEachPoint nth_error].
      rewrite (IH (S i) j point Hj), Nat.add_succ_r. reflexivity.
Qed.

Lemma forEachPoint_length canvas dataKey : forall history i,
  List.length (forEachPoint canvas dataKey i history) = List.length history.
Proof.
  intros hist. induction hist as [|p0 hist IH]; intros i; [reflexivity|].
  cbn [forEachPoint List.length]. now rewrite IH.
Qed.






(** X3. Each series is one polyline through the entries in order: the
    calls of [forEachPoint] are as many as the entries, the call for entry
    [j] is a [moveTo] for the first entry and a [lineTo] for the others,
    and it goes to the point the source computes, [j * xStep] across and
    [height - (value / 100) * height] down.  The first entry is on the left
    edge, a value of 0 on the bottom edge and a value of 100 on the top
    edge, and on a canvas 1200 wide the 200th entry is on the right edge. *)
Theorem plot_positions canvas dataKey history j point :
  nth_error history j = Some point ->
  nth_error (forEachPoint canvas dataKey 0 history) j =
    Some (if (j =? 0)%nat
          then moveTo (plotX canvas j) (plotY canvas (dataKey point))
          else lineTo (plotX canvas j) (plotY canvas (dataKey point))) /\
  List.length (forEachPoint canvas dataKey 0 history)
    = List.length history /\
  plotX canvas 0 == 0 /\
  (width canvas == 1200 -> plotX canvas 199 == 1200) /\
  (dataKey point == 0 -> plotY canvas (dataKey point) == height canvas) /\
  (dataKey point == 100 -> plotY canvas (dataKey point) == 0).
Proof.
  intros Hj. split; [exact (forEachPoint_nth canvas dataKey _ 0 j point Hj)|].
  split; [apply forEachPoint_length|].
  unfold plotX, plotY, xStep.
  change (ofNat (maxHistory - 1)) with 199.
  change (ofNat 0) with 0. change (ofNat 199) with 199.
  split; [field|]. split; [|split].
  - intros ->. reflexivity.
  - intros ->. field.
  - intros ->. field.
Qed.

Lemma plot_positions_witness :
  nth_error
    (forEachPoint chartCanvas HistoryItem.brake 0
       [HistoryItem.mk 0 100 50; HistoryItem.mk 25 0 100]) 1
  = Some (lineTo (plotX chartCanvas 1) (plotY chartCanvas 0)) /\
  plotY chartCanvas 0 == 300 /\
  plotX chartCanvas 199 == 1200.
Proof.
  destruct (plot_positions chartCanvas HistoryItem.brake
              [HistoryItem.mk 0 100 50; HistoryItem.mk 25 0 100] 1
              (HistoryItem.mk 25 0 100) eq_refl)
    as (Hn & _ & _ & Hright & Hbottom & _).
  split; [exact Hn|].
  split; [apply Hbottom | apply Hright]; reflexivity.
Defined.



End Plot.

(** ** What a poll writes *)

Section PollEffects.

Local Open Scope Z_scope.

Lemma genericBranch_find gamepads :
  genericBranch gamepads = true ->
  hasMatch gamepads = false /\
  existsb notNull gamepads = true /\
  exists g, find notNull gamepads = Some (Some g) /\
            (2 <= List.length (axes g))%nat.
Proof.
  unfold genericBranch. intros H. apply andb_true_iff in H as [Hm Hf].
  apply negb_true_iff in Hm. split; [exact Hm|].
  destruct (find notNull gamepads) as [[g|]|] eqn:Hfind; try discriminate.
  split.
  - apply existsb_exists. exists (Some g). split; [|reflexivity].
    apply (find_some _ _ Hfind).
  - exists g. split; [reflexivity | now apply Nat.leb_le].
Qed.

(** A poll, told from the enumeration: the matched branch on the first
    match, the generic branch on the first filled slot, the timeout when
    every slot is empty, and nothing otherwise. *)
Lemma pollGamepads_branches gamepads now s :
  (hasMatch gamepads = true /\
   exists i g, firstMatch gamepads i g /\
               pollGamepads gamepads now s = matchedUpdate g now s) \/
  (genericBranch gamepads = true /\
   exists g, find notNull gamepads = Some (Some g) /\
             pollGamepads gamepads now s = genericUpdate g now s) \/
  (storesReading gamepads = false /\
   existsb notNull gamepads = true /\
   pollGamepads gamepads now s = s) \/
  (storesReading gamepads = false /\
   existsb notNull gamepads = false /\
   pollGamepads gamepads now s =
   if 2000 <? now - lastUpdate s
   then setConnectionStatus no_device s else s).
Proof.
  destruct (hasMatch gamepads) eqn:Hm.
  - left. split; [reflexivity|].
    destruct (hasMatch_first _ Hm) as (i & g & Hf). exists i, g.
    split; [exact Hf | now apply pollGamepads_matched with (i := i)].
  - right. rewrite (pollGamepads_unmatched gamepads now s Hm).
    unfold storesReading, genericBranch. rewrite Hm. cbn [negb andb orb].
    destruct (existsb notNull gamepads) eqn:Hsome.
    + destruct (find notNull gamepads) as [[g|]|] eqn:Hfind.
      * destruct (2 <=? List.length (axes g))%nat eqn:Hlen.
        -- left. split; [reflexivity|]. exists g. auto.
        -- right. left. auto.
      * right. left. auto.
      * right. left. auto.
    + right. right.
      assert (Hfind : find notNull gamepads = None).
      { destruct (find notNull gamepads) as [x|] eqn:Hfind; [|reflexivity].
        apply find_some in Hfind as [Hin Hx].
        assert (existsb notNull gamepads = true); [|congruence].
        apply existsb_exists. eauto. }
      rewrite Hfind. repeat split.
      rewrite Z.gtb_ltb. reflexivity.
Qed.

(** X5. The status a poll leaves is ['connected'] when some slot matches,
    else ['connected-generic'] when the first filled slot has 2 axes or
    more, else unchanged while some slot is filled, else ['no-device'] when
    more than 2000 ms have passed since the last update (at exactly 2000 ms
    the status is kept), else unchanged.  The previous status plays no
    part in the first two cases: ['no-device'] is left as soon as a device
    answers. *)
Theorem poll_status gamepads now s :
  connectionStatus (pollGamepads gamepads now s)
    = statusAfterPoll gamepads now s.
Proof.
  unfold statusAfterPoll.
  destruct (pollGamepads_branches gamepads now s)
    as [(Hm & i & g & _ & ->) | [(Hg & g & _ & ->) | [(Hn & Hs & ->) |
        (Hn & Hs & ->)]]].
  - now rewrite Hm.
  - destruct (genericBranch_find _ Hg) as (Hm & _). now rewrite Hm, Hg.
  - apply orb_false_iff in Hn as [-> ->]. now rewrite Hs.
  - apply orb_false_iff in Hn as [-> ->]. rewrite Hs.
    now destruct (2000 <? now - lastUpdate s).
Qed.

(** X6. The time of the last update is reset by every poll that stores a
    reading, matched or generic alike, and by no other poll: a generic
    device keeps the timeout from running out just as the pedals do. *)
Theorem poll_lastUpdate gamepads now s :
  lastUpdate (pollGamepads gamepads now s)
    = if storesReading gamepads then now else lastUpdate s.
Proof.
  unfold storesReading.
  destruct (pollGamepads_branches gamepads now s)
    as [(Hm & i & g & _ & ->) | [(Hg & g & _ & ->) | [(Hn & Hs & ->) |
        (Hn & Hs & ->)]]].
  - now rewrite Hm.
  - rewrite Hg, orb_true_r. reflexivity.
  - unfold storesReading in Hn. now rewrite Hn.
  - unfold storesReading in Hn. rewrite Hn.
    now destruct (2000 <? now - lastUpdate s).
Qed.

(** X7. A poll that stores no reading writes no cell but the status: the
    readings, the history, the time of the last update, the diagnostics and
    the peaks are those of before. *)
Theorem idle_poll_frame gamepads now s :
  storesReading gamepads = false ->
  throttle (pollGamepads gamepads now s) = throttle s /\
  brake (pollGamepads gamepads now s) = brake s /\
  steering (pollGamepads gamepads now s) = steering s /\
  steeringAngle (pollGamepads gamepads now s) = steeringAngle s /\
  history (pollGamepads gamepads now s) = history s /\
  lastUpdate (pollGamepads gamepads now s) = lastUpdate s /\
  debugInfo (pollGamepads gamepads now s) = debugInfo s /\
  sessionStats (pollGamepads gamepads now s) = sessionStats s.
Proof.
  intros Hn.
  destruct (pollGamepads_branches gamepads now s)
    as [(Hm & _) | [(Hg & _) | [(_ & _ & ->) | (_ & _ & ->)]]].
  - unfold storesReading in Hn. rewrite Hm in Hn. discriminate.
  - unfold storesReading in Hn. rewrite Hg, orb_true_r in Hn. discriminate.
  - repeat split.
  - destruct (2000 <? now - lastUpdate s); repeat split.
Qed.

Lemma idle_poll_frame_witness :
  sessionStats
    (pollGamepads [None; None] 5000
       (pollGamepads pedalsHalfThrottle 16 (initialState 0 0)))
  = sessionStats (pollGamepads pedalsHalfThrottle 16 (initialState 0 0)) /\
  connectionStatus
    (pollGamepads [None; None] 5000
       (pollGamepads pedalsHalfThrottle 16 (initialState 0 0)))
  = no_device.
Proof.
  split.
  - apply (idle_poll_frame [None; None] 5000
             (pollGamepads pedalsHalfThrottle 16 (initialState 0 0))).
    reflexivity.
  - reflexivity.
Defined.

End PollEffects.

(** ** The clock of the timeout *)

Section Clock.

Local Open Scope Z_scope.

(** X8. Along a run whose clock readings do not go back, the time of the
    last update never goes back either, and it is never before the last
    poll that found a match. *)
Theorem lastUpdate_monotone lo es s :
  chronological lo es = true ->
  lastUpdate s <= lo ->
  lastUpdate s <= lastUpdate (run es s) /\
  (forall t, lastMatchTime es = Some t -> t <= lastUpdate (run es s)).
Proof.
  intros Hchr Hlo. split.
  - apply (run_lastUpdate_lower es s lo); [exact Hchr | exact Hlo | lia].
  - intros t Ht. apply (lastMatch_le_lastUpdate es s lo t Hchr Ht).
Qed.

Lemma lastUpdate_monotone_witness :
  lastUpdate (initialState 0 0)
    <= lastUpdate (run mixedRun (initialState 0 0)) /\
  (forall t, lastMatchTime mixedRun = Some t ->
             t <= lastUpdate (run mixedRun (initialState 0 0))).
Proof.
  apply (lastUpdate_monotone 0 mixedRun (initialState 0 0)).
  - reflexivity.
  - simpl. lia.
Defined.

End Clock.

(** ** The diagnostics *)

Section Diagnostics.

Local Open Scope list_scope.

Lemma indexedFrom_fst a : forall i,
  map fst (indexedFrom i a) = seq i (List.length a).
Proof.
  induction a as [|v a IH]; intros i; [reflexivity|].
  cbn [indexedFrom map fst List.length seq]. now rewrite IH.
Qed.

(** X9. After a poll that finds a match the diagnostics name the matched
    device and hold one entry per axis, indexed 0, 1, 2, ... in order; a poll
    that finds no match leaves the diagnostics as they were, so a generic
    device is never shown there and the last matched device stays. *)
Theorem debugInfo_after_poll gamepads now s :
  (forall i g, firstMatch gamepads i g ->
     exists d,
       debugInfo (pollGamepads gamepads now s) = Some d /\
       DebugInfo.name d = id g /\
       map fst (DebugInfo.axes d) = seq 0 (List.length (axes g))) /\
  (hasMatch gamepads = false ->
     debugInfo (pollGamepads gamepads now s) = debugInfo s).
Proof.
  split.
  - intros i g Hf. rewrite (pollGamepads_matched _ _ _ now s Hf).
    eexists. split; [reflexivity|]. cbn [DebugInfo.name DebugInfo.axes].
    split; [reflexivity | apply indexedFrom_fst].
  - intros Hm.
    destruct (pollGamepads_result gamepads now s) as [i g Hf| | |];
      try reflexivity.
    apply firstMatch_hasMatch in Hf. congruence.
Qed.

Lemma debugInfo_after_poll_witness :
  (exists d,
     debugInfo (pollGamepads pedalsAtRest 16 (initialState 0 0)) = Some d /\
     DebugInfo.name d = "SIMAGIC pedals"%string /\
     map fst (DebugInfo.axes d) = [0; 1; 2]%nat) /\
  debugInfo
    (pollGamepads mouseCentred 32
       (pollGamepads pedalsAtRest 16 (initialState 0 0)))
  = debugInfo (pollGamepads pedalsAtRest 16 (initialState 0 0)).
Proof.
  split.
  - apply (proj1 (debugInfo_after_poll pedalsAtRest 16 (initialState 0 0))
             0%nat (mkGamepad "SIMAGIC pedals" [0.5; 0; 0]%Q)).
    exact pedalsAtRest_first.
  - apply (proj2 (debugInfo_after_poll mouseCentred 32
             (pollGamepads pedalsAtRest 16 (initialState 0 0)))).
    reflexivity.
Defined.

End Diagnostics.

(** ** Steering *)

Section Steering.

Local Open Scope Q_scope.

Lemma Qltb_lt x y : Qltb x y = true <-> x < y.
Proof.
  unfold Qltb. rewrite negb_true_iff. split.
  - intros H. apply Qnot_le_lt. intros Hle.
    apply Qle_bool_iff in Hle. congruence.
  - intros H. destruct (Qle_bool y x) eqn:E; [|reflexivity].
    apply Qle_bool_iff in E. exfalso. apply (Qlt_not_le _ _ H E).
Qed.

Lemma Qltb_ge x y : Qltb x y = false <-> y <= x.
Proof.
  unfold Qltb. rewrite negb_false_iff. apply Qle_bool_iff.
Qed.

(** X10. On the matched path the steering percent is the size of the axis
    times 100 and the angle the axis times 450, as the source computes
    them.  The angle has the sign of the axis; full lock, axis 1 or -1, is
    100 percent at 450 or -450 degrees, and a centred axis is 0 percent at
    0 degrees; mirrored axes give the same percent and opposite angles; and
    an axis in [-1, 1] gives a percent in [0, 100] and an angle within 450
    degrees. *)
Theorem matched_steering gamepads i g now s :
  firstMatch gamepads i g ->
  steering (pollGamepads gamepads now s) = Qabs (steeringAxis g) * 100 /\
  steeringAngle (pollGamepads gamepads now s) = steeringAxis g * 450 /\
  (0 <= steeringAxis g ->
     0 <= steeringAngle (pollGamepads gamepads now s)) /\
  (steeringAxis g <= 0 ->
     steeringAngle (pollGamepads gamepads now s) <= 0) /\
  (steeringAxis g == 1 ->
     steering (pollGamepads gamepads now s) == 100 /\
     steeringAngle (pollGamepads gamepads now s) == 450) /\
  (steeringAxis g == -1 ->
     steering (pollGamepads gamepads now s) == 100 /\
     steeringAngle (pollGamepads gamepads now s) == -450) /\
  (steeringAxis g == 0 ->
     steering (pollGamepads gamepads now s) == 0 /\
     steeringAngle (pollGamepads gamepads now s) == 0) /\
  (forall gamepads' i' g' now' s',
     firstMatch gamepads' i' g' ->
     steeringAxis g' == - steeringAxis g ->
     steering (pollGamepads gamepads' now' s')
       == steering (pollGamepads gamepads now s) /\
     steeringAngle (pollGamepads gamepads' now' s')
       == - steeringAngle (pollGamepads gamepads now s)) /\
  (isAxis (steeringAxis g) ->
     isPercent (steering (pollGamepads gamepads now s)) /\
     -450 <= steeringAngle (pollGamepads gamepads now s) <= 450).
Proof.
  intros Hf. rewrite (pollGamepads_matched _ _ _ now s Hf).
  cbn [matchedUpdate steering steeringAngle].
  split; [reflexivity|]. split; [reflexivity|].
  split; [intros H; lra|]. split; [intros H; lra|].
  split; [intros ->; split; reflexivity|].
  split; [intros ->; split; reflexivity|].
  split; [intros ->; split; reflexivity|].
  split.
  - intros gamepads' i' g' now' s' Hf' Hneg.
    rewrite (pollGamepads_matched _ _ _ now' s' Hf').
    cbn [matchedUpdate steering steeringAngle].
    rewrite Hneg, Qabs_opp. split; ring.
  - intros Ha. split; [now apply abs_percent_range | now apply angle_range].
Qed.

Lemma matched_steering_witness :
  steering (pollGamepads pedalsAtRest 16 (initialState 0 0))
    = Qabs 0.5 * 100 /\
  steeringAngle (pollGamepads pedalsAtRest 16 (initialState 0 0))
    = 0.5 * 450 /\
  0 <= steeringAngle (pollGamepads pedalsAtRest 16 (initialState 0 0)).
Proof.
  destruct (matched_steering pedalsAtRest 0 _ 16 (initialState 0 0)
              pedalsAtRest_first) as (H1 & H2 & H3 & _).
  split; [exact H1 | split; [exact H2 | apply H3; discriminate]].
Defined.

(** X11. The steering bar starts at the centre of its track and reaches
    towards the side of the angle: for an angle to the left the right
    offset is 50 and the left offset at most 50, for an angle to the right
    the left offset is 50 and the right offset at most 50, and at angle 0
    both are 50.  At full lock, -450 or 450 degrees, the offset on that
    side is 0, and for an angle within 450 degrees neither offset is
    negative: the bar stays on the track. *)
Theorem steering_bar_extent angle :
  (angle < 0 ->
     steeringBarRight angle = 50 /\ steeringBarLeft angle <= 50) /\
  (0 < angle ->
     steeringBarLeft angle = 50 /\ steeringBarRight angle <= 50) /\
  (angle == 0 ->
     steeringBarLeft angle = 50 /\ steeringBarRight angle = 50) /\
  (angle == -450 -> steeringBarLeft angle == 0) /\
  (angle == 450 -> steeringBarRight angle == 0) /\
  (-450 <= angle <= 450 ->
     0 <= steeringBarLeft angle <= 50 /\
     0 <= steeringBarRight angle <= 50).
Proof.
  unfold steeringBarLeft, steeringBarRight.
  assert (E : angle / 9 == angle * (1 # 9)) by field.
  destruct (Qltb angle 0) eqn:Hneg; destruct (Qltb 0 angle) eqn:Hpos;
    try apply Qltb_lt in Hneg; try apply Qltb_lt in Hpos;
    try apply Qltb_ge in Hneg; try apply Qltb_ge in Hpos.
  - exfalso. lra.
  - split; [intros _; split; [reflexivity | rewrite E; lra]|].
    split; [intros H; exfalso; lra|].
    split; [intros H; exfalso; lra|].
    split; [intros H; rewrite E, H; reflexivity|].
    split; [intros H; exfalso; lra|].
    intros [Hlo Hhi]. rewrite E. repeat split; lra.
  - split; [intros H; exfalso; lra|].
    split; [intros _; split; [reflexivity | rewrite E; lra]|].
    split; [intros H; exfalso; lra|].
    split; [intros H; exfalso; lra|].
    split; [intros H; rewrite E, H; reflexivity|].
    intros [Hlo Hhi]. rewrite E. repeat split; lra.
  - split; [intros H; exfalso; lra|].
    split; [intros H; exfalso; lra|].
    split; [intros _; split; reflexivity|].
    split; [intros H; exfalso; lra|].
    split; [intros H; exfalso; lra|].
    intros _. repeat split; discriminate.
Qed.

Lemma steering_bar_extent_witness :
  0 <= steeringBarLeft (-225) <= 50 /\
  0 <= steeringBarRight (-225) <= 50 /\
  steeringBarRight (-225) = 50.
Proof.
  destruct (steering_bar_extent (-225)) as (Hleft & _ & _ & _ & _ & Hin).
  destruct Hin as [Hl Hr]; [split; discriminate|].
  split; [exact Hl | split; [exact Hr | apply Hleft; reflexivity]].
Defined.

End Steering.

(** ** Devices with few axes *)

Section FewAxes.

Local Open Scope Q_scope.

(** X12. A matched device that lacks an axis reads as released: without
    axis 2 the brake is 0, without axis 1 the throttle is 0 as well, and
    without any axis the steering is centred.  The poll never fails on a
    short axes array. *)
Theorem matched_missing_axes gamepads i g now s :
  firstMatch gamepads i g ->
  ((List.length (axes g) <= 2)%nat ->
     brake (pollGamepads gamepads now s) == 0) /\
  ((List.length (axes g) <= 1)%nat ->
     throttle (pollGamepads gamepads now s) == 0) /\
  (axes g = [] ->
     steering (pollGamepads gamepads now s) == 0 /\
     steeringAngle (pollGamepads gamepads now s) == 0).
Proof.
  intros Hf. rewrite (pollGamepads_matched _ _ _ now s Hf).
  cbn [matchedUpdate throttle brake steering steeringAngle].
  unfold throttleAxis, brakeAxis, steeringAxis, axisOrDefault.
  split; [|split].
  - intros Hlen. destruct (axes g) as [|a [|b [|c l]]];
      simpl in Hlen; try lia; reflexivity.
  - intros Hlen. destruct (axes g) as [|a [|b l]];
      simpl in Hlen; try lia; reflexivity.
  - intros ->. split; reflexivity.
Qed.

Lemma pedalsOneAxis_first :
  firstMatch pedalsOneAxis 0 (mkGamepad "Simagic P1000" [0.25]).
Proof.
  repeat split. intros j g Hj. lia.
Defined.

Lemma matched_missing_axes_witness :
  brake (pollGamepads pedalsOneAxis 16 (initialState 0 0)) == 0 /\
  throttle (pollGamepads pedalsOneAxis 16 (initialState 0 0)) == 0.
Proof.
  destruct (matched_missing_axes pedalsOneAxis 0 _ 16 (initialState 0 0)
              pedalsOneAxis_first) as (Hb & Ht & _).
  split; [apply Hb | apply Ht]; simpl; lia.
Defined.

(** X13. The generic branch reads a device of exactly two axes [c; a]: the
    brake and the steering percent are both the inverted reading of axis 0,
    [((1 - c) / 2) * 100], the angle is [c * 450], the throttle is the
    inverted reading of axis 1 for every reading but 0, the status becomes
    ['connected-generic'] and the last update is now. *)
Theorem generic_branch_readings gamepads g now s :
  hasMatch gamepads = false ->
  find notNull gamepads = Some (Some g) ->
  (2 <= List.length (axes g))%nat ->
  exists c a,
    axes g = [c; a] /\
    brake (pollGamepads gamepads now s) == ((1 - c) / 2) * 100 /\
    steering (pollGamepads gamepads now s)
      == brake (pollGamepads gamepads now s) /\
    steeringAngle (pollGamepads gamepads now s) == c * 450 /\
    (~ a == 0 ->
       throttle (pollGamepads gamepads now s) = ((1 - a) / 2) * 100) /\
    connectionStatus (pollGamepads gamepads now s) = connected_generic /\
    lastUpdate (pollGamepads gamepads now s) = now.
Proof.
  intros Hm Hfind Hlen.
  pose proof (find_some _ _ Hfind) as [Hin _].
  pose proof (unmatched_slot _ _ Hm Hin) as Hg.
  unfold isMatch in Hg. rewrite !orb_false_iff in Hg.
  destruct Hg as (_ & Hax). apply Nat.leb_gt in Hax.
  destruct (axes g) as [|c [|a [|b l]]] eqn:Eax; simpl in Hlen, Hax; try lia.
  exists c, a. split; [reflexivity|].
  rewrite (pollGamepads_unmatched gamepads now s Hm).
  assert (Hsome : existsb notNull gamepads = true).
  { apply existsb_exists. exists (Some g). auto. }
  rewrite Hsome, Hfind, Eax.
  cbn [List.length Nat.leb genericUpdate brake throttle steering
       steeringAngle connectionStatus lastUpdate].
  rewrite Eax. cbn [nth_error].
  assert (Hc : orNumber (Some c) 0 == c).
  { cbn [orNumber]. destruct (Qeq_bool c 0) eqn:Ec; [|reflexivity].
    apply Qeq_bool_eq in Ec. now rewrite Ec. }
  assert (Hb : orNumber (jsOr None (Some c)) 0 == c) by exact Hc.
  split; [now rewrite Hb|].
  split; [now rewrite Hb, Hc|].
  split; [now rewrite Hc|].
  split; [|split; reflexivity].
  intros Ha. cbn [orNumber].
  destruct (Qeq_bool a 0) eqn:Ea; [|reflexivity].
  apply Qeq_bool_eq in Ea. contradiction.
Qed.

Lemma generic_branch_readings_witness :
  exists c a,
    [1; -1] = [c; a] /\
    brake (pollGamepads mouseFullThrottle 16 (initialState 0 0))
      == ((1 - c) / 2) * 100 /\
    throttle (pollGamepads mouseFullThrottle 16 (initialState 0 0))
      == ((1 - a) / 2) * 100.
Proof.
  destruct (generic_branch_readings mouseFullThrottle
              (mkGamepad "Mouse" [1; -1]) 16 (initialState 0 0)
              eq_refl eq_refl (le_n 2))
    as (c & a & Hax & Hb & _ & _ & Ht & _).
  exists c, a. split; [exact Hax|]. split; [exact Hb|].
  injection Hax as <- <-. rewrite Ht; [reflexivity | discriminate].
Defined.

End FewAxes.

(** ** The session statistics over a session *)

Section Session.

Local Open Scope Q_scope.

Lemma run_app es1 es2 s : run (es1 ++ es2) s = run es2 (run es1 s).
Proof. unfold run. apply fold_left_app. Qed.

Lemma step_startTime e s :
  startTime (sessionStats (step e s)) = startTime (sessionStats s).
Proof.
  destruct e as [gamepads now| |now]; cbn [step]; try reflexivity.
  destruct (pollGamepads_result gamepads now s); reflexivity.
Qed.

Lemma run_startTime es : forall s,
  startTime (sessionStats (run es s)) = startTime (sessionStats s).
Proof.
  induction es as [|e es IH]; intros s; [reflexivity|].
  cbn [run fold_left]. fold (run es (step e s)).
  now rewrite IH, step_startTime.
Qed.

(** X14. Over a session the three peaks never go down and the start time
    is never rewritten: whatever happens after any point of a run, polls of
    any kind, history ticks or refreshes, each peak is at least what it was
    at that point. *)
Theorem peaks_never_decrease es1 es2 s :
  peakThrottle (sessionStats (run es1 s))
    <= peakThrottle (sessionStats (run (es1 ++ es2) s)) /\
  peakBrake (sessionStats (run es1 s))
    <= peakBrake (sessionStats (run (es1 ++ es2) s)) /\
  peakSteering (sessionStats (run es1 s))
    <= peakSteering (sessionStats (run (es1 ++ es2) s)) /\
  startTime (sessionStats (run (es1 ++ es2) s))
    = startTime (sessionStats s).
Proof.
  rewrite run_app.
  destruct (run_peaks_monotone es2 (run es1 s)) as (H1 & H2 & H3).
  rewrite !run_startTime. auto.
Qed.

(** X15. From mount, each peak is the running maximum, starting at 0, of
    the readings stored by the polls that found a match: the throttle and
    brake percents, and for [peakSteering] the size of the steering angle
    in degrees. *)
Theorem peaks_are_matched_maxima tUpdate tStart es :
  runningMax 0
    (samples hasMatch throttle es (initialState tUpdate tStart))
    (peakThrottle (sessionStats (run es (initialState tUpdate tStart)))) /\
  runningMax 0
    (samples hasMatch brake es (initialState tUpdate tStart))
    (peakBrake (sessionStats (run es (initialState tUpdate tStart)))) /\
  runningMax 0
    (samples hasMatch steeringSize es (initialState tUpdate tStart))
    (peakSteering (sessionStats (run es (initialState tUpdate tStart)))).
Proof.
  exact (peaks_running_max_matched es (initialState tUpdate tStart)).
Qed.

(** X16. From mount, the history is the sliding window of the last 200
    snapshots the history ticks recorded, oldest first: nothing else is
    ever put in it, and its length is the number of ticks up to 200. *)
Theorem history_sliding_window tUpdate tStart es :
  history (run es (initialState tUpdate tStart))
    = lastN 200 (recorded es (initialState tUpdate tStart)) /\
  List.length (history (run es (initialState tUpdate tStart)))
    = Nat.min 200
        (List.length (recorded es (initialState tUpdate tStart))).
Proof.
  assert (E : history (run es (initialState tUpdate tStart))
              = lastN 200 (recorded es (initialState tUpdate tStart))).
  { rewrite run_history_recorded. cbn [initialState history].
    apply appendAll_lastN. }
  split; [exact E|].
  rewrite E. unfold lastN. rewrite length_skipn. lia.
Qed.

End Session.

(** ** The version of [components/Home.tsx] *)

Section HomeVersion.

Local Open Scope list_scope.
Local Open Scope Q_scope.

Lemma Home_matchLoop_first now h : forall gamepads i g,
  firstMatch gamepads i g ->
  Home.matchLoop gamepads now h = (true, Home.matchedUpdate g now h).
Proof.
  induction gamepads as [|slot rest IH]; intros i g (Hnth & Hm & Hbefore).
  - destruct i; discriminate.
  - destruct i as [|i].
    + simpl in Hnth. injection Hnth as ->. simpl. now rewrite Hm.
    + assert (Hrest : firstMatch rest i g).
      { repeat split; auto. intros j g' Hj Hg'.
        apply (Hbefore (S j) g'); [lia | exact Hg']. }
      simpl. destruct slot as [g0|]; [|eauto].
      rewrite (Hbefore 0%nat g0) by (simpl; auto; lia). eauto.
Qed.

Lemma Home_matchLoop_none now h : forall gamepads,
  hasMatch gamepads = false -> Home.matchLoop gamepads now h = (false, h).
Proof.
  induction gamepads as [|[g|] rest IH]; simpl; intros H; auto.
  apply orb_false_iff in H as [-> H]. auto.
Qed.

Lemma Home_poll_matched gamepads i g now h :
  firstMatch gamepads i g ->
  Home.pollGamepads gamepads now h = Home.matchedUpdate g now h.
Proof.
  intros H. unfold Home.pollGamepads.
  now rewrite (Home_matchLoop_first now h _ _ _ H).
Qed.

Lemma Home_poll_unmatched gamepads now h :
  hasMatch gamepads = false ->
  Home.pollGamepads gamepads now h =
  if existsb notNull gamepads then
    match find notNull gamepads with
    | Some (Some gamepad) =>
        if (2 <=? List.length (axes gamepad))%nat
        then Home.genericUpdate gamepad now h
        else h
    | _ => h
    end
  else if (now - Home.lastUpdate h >? 2000)%Z
       then Home.setConnectionStatus no_device h
       else h.
Proof.
  intros H. unfold Home.pollGamepads.
  now rewrite (Home_matchLoop_none now h _ H).
Qed.

Lemma half_is_active x : x == 50 -> Qltb 5 x = true.
Proof. intros H. apply Qltb_lt. rewrite H. reflexivity. Qed.

(** X17. In [Home.tsx] a matched pedal axis is shown as
    [((a + 1) / 2) * 100] without exception, a missing axis counting as 0:
    a throttle axis that is missing or reads exactly 0 shows 50 percent,
    and so does the brake, and the component then counts as active. *)
Theorem home_resting_pedal_shows_half gamepads i g now h :
  firstMatch gamepads i g ->
  Home.throttle (Home.pollGamepads gamepads now h)
    = ((axisOrDefault (axes g) 1 0 + 1) / 2) * 100 /\
  Home.brake (Home.pollGamepads gamepads now h)
    = ((axisOrDefault (axes g) 2 0 + 1) / 2) * 100 /\
  ((List.length (axes g) <= 1)%nat \/
   (exists v, nth_error (axes g) 1 = Some v /\ v == 0) ->
     Home.throttle (Home.pollGamepads gamepads now h) == 50 /\
     Home.isActive (Home.pollGamepads gamepads now h) = true) /\
  ((List.length (axes g) <= 2)%nat \/
   (exists v, nth_error (axes g) 2 = Some v /\ v == 0) ->
     Home.brake (Home.pollGamepads gamepads now h) == 50 /\
     Home.isActive (Home.pollGamepads gamepads now h) = true).
Proof.
  intros Hf. rewrite (Home_poll_matched _ _ _ now h Hf).
  unfold Home.isActive.
  cbn [Home.matchedUpdate Home.throttle Home.brake Home.steering].
  split; [reflexivity|]. split; [reflexivity|].
  split.
  - intros Hrest.
    assert (E : axisOrDefault (axes g) 1 0 == 0).
    { unfold axisOrDefault. destruct Hrest as [Hlen | (v & -> & Hv)];
        [|exact Hv].
      destruct (nth_error (axes g) 1) eqn:En; [|reflexivity].
      assert (nth_error (axes g) 1 <> None) as Hn by congruence.
      apply nth_error_Some in Hn. lia. }
    assert (E50 : (axisOrDefault (axes g) 1 0 + 1) / 2 * 100 == 50)
      by (rewrite E; reflexivity).
    split; [exact E50|]. now rewrite (half_is_active _ E50).
  - intros Hrest.
    assert (E : axisOrDefault (axes g) 2 0 == 0).
    { unfold axisOrDefault. destruct Hrest as [Hlen | (v & -> & Hv)];
        [|exact Hv].
      destruct (nth_error (axes g) 2) eqn:En; [|reflexivity].
      assert (nth_error (axes g) 2 <> None) as Hn by congruence.
      apply nth_error_Some in Hn. lia. }
    assert (E50 : (axisOrDefault (axes g) 2 0 + 1) / 2 * 100 == 50)
      by (rewrite E; reflexivity).
    split; [exact E50|].
    rewrite (half_is_active _ E50), orb_true_r. reflexivity.
Qed.

Lemma home_resting_pedal_shows_half_witness :
  Home.throttle (Home.pollGamepads pedalsOneAxis 16 (Home.initialState 0 0))
    == 50 /\
  Home.isActive (Home.pollGamepads pedalsOneAxis 16 (Home.initialState 0 0))
    = true.
Proof.
  destruct (home_resting_pedal_shows_half pedalsOneAxis 0 _ 16
              (Home.initialState 0 0) pedalsOneAxis_first)
    as (_ & _ & Ht & _).
  apply Ht. left. simpl. lia.
Defined.

(** X18. In the generic branch of [Home.tsx] the pedals are the inverted
    readings for every reading, 0 included: for the device [c; a] the
    throttle is [((1 - a) / 2) * 100] and the brake, like the steering
    percent, [((1 - c) / 2) * 100]. *)
Theorem home_generic_readings gamepads g now h :
  hasMatch gamepads = false ->
  find notNull gamepads = Some (Some g) ->
  (2 <= List.length (axes g))%nat ->
  exists c a,
    axes g = [c; a] /\
    Home.throttle (Home.pollGamepads gamepads now h)
      == ((1 - a) / 2) * 100 /\
    Home.brake (Home.pollGamepads gamepads now h)
      == ((1 - c) / 2) * 100 /\
    Home.steering (Home.pollGamepads gamepads now h)
      == ((1 - c) / 2) * 100.
Proof.
  intros Hm Hfind Hlen.
  pose proof (find_some _ _ Hfind) as [Hin _].
  pose proof (unmatched_slot _ _ Hm Hin) as Hg.
  unfold isMatch in Hg. rewrite !orb_false_iff in Hg.
  destruct Hg as (_ & Hax). apply Nat.leb_gt in Hax.
  destruct (axes g) as [|c [|a [|b l]]] eqn:Eax; simpl in Hlen, Hax; try lia.
  exists c, a. split; [reflexivity|].
  rewrite (Home_poll_unmatched gamepads now h Hm).
  assert (Hsome : existsb notNull gamepads = true).
  { apply existsb_exists. exists (Some g). auto. }
  rewrite Hsome, Hfind, Eax.
  cbn [List.length Nat.leb Home.genericUpdate Home.brake Home.throttle
       Home.steering].
  rewrite Eax. cbn [nth_error].
  assert (Hz : forall v, orNumber (Some v) 0 == v).
  { intros v. cbn [orNumber]. destruct (Qeq_bool v 0) eqn:Ev; [|reflexivity].
    apply Qeq_bool_eq in Ev. now rewrite Ev. }
  assert (Hb : orNumber (jsOr None (Some c)) 0 == c) by apply Hz.
  split; [now rewrite Hz|]. split; [now rewrite Hb | now rewrite Hz].
Qed.

Lemma home_generic_readings_witness :
  exists c a,
    [0.5; 0] = [c; a] /\
    Home.throttle (Home.pollGamepads mouseCentred 16 (Home.initialState 0 0))
      == ((1 - a) / 2) * 100 /\
    Home.throttle (Home.pollGamepads mouseCentred 16 (Home.initialState 0 0))
      == 50.
Proof.
  destruct (home_generic_readings mouseCentred
              (mkGamepad "Mouse" [0.5; 0]) 16 (Home.initialState 0 0)
              eq_refl eq_refl (le_n 2))
    as (c & a & Hax & Ht & _).
  exists c, a. split; [exact Hax|]. split; [exact Ht | reflexivity].
Defined.

Lemma max_same_reading p p' m c :
  p == Qabs (m * 450) -> p' == Qabs m * 100 ->
  exists m',
    Qmax p (Qabs (c * 450)) == Qabs (m' * 450) /\
    Qmax p' (Qabs c * 100) == Qabs m' * 100.
Proof.
  intros Hp Hp'. rewrite Qabs_Qmult in Hp. change (Qabs 450) with 450 in Hp.
  destruct (Qlt_le_dec (Qabs m) (Qabs c)) as [Hlt | Hle].
  - exists c. rewrite Qabs_Qmult. change (Qabs 450) with 450.
    split; apply Q.max_r; lra.
  - exists m. rewrite !Qabs_Qmult. change (Qabs 450) with 450.
    split.
    + rewrite Q.max_l; [exact Hp | lra].
    + rewrite Q.max_l; [exact Hp' | lra].
Qed.

Lemma matched_agree g now s h :
  sameCells s h ->
  (3 <= List.length (axes g))%nat ->
  (forall v, nth_error (axes g) 1 = Some v -> ~ v == 0) ->
  (forall v, nth_error (axes g) 2 = Some v -> ~ v == 0) ->
  sameCells (matchedUpdate g now s) (Home.matchedUpdate g now h).
Proof.
  intros (Et & Eb & Es & Eh & Ec & El & Ed & Est & Ept & Epb & m & Eps & Eps')
    Hlen H1 H2.
  destruct (axes g) as [|c [|a [|b l]]] eqn:Eax; simpl in Hlen; try lia.
  specialize (H1 a eq_refl). specialize (H2 b eq_refl).
  unfold sameCells, matchedUpdate, Home.matchedUpdate, throttleAxis,
    brakeAxis, steeringAxis, axisOrDefault.
  rewrite Eax.
  cbn [nth_error throttle brake steering history connectionStatus lastUpdate
       debugInfo sessionStats startTime peakThrottle peakBrake peakSteering
       Home.throttle Home.brake Home.steering Home.history
       Home.connectionStatus Home.lastUpdate Home.debugInfo
       Home.sessionStats].
  rewrite (newThrottle_formula a (closureThrottle s))
    by (intros [Ha _]; contradiction).
  rewrite (newBrake_formula b (closureBrake s))
    by (intros [Hb _]; contradiction).
  rewrite Ept, Epb.
  refine (conj eq_refl (conj eq_refl (conj eq_refl (conj Eh (conj eq_refl
            (conj eq_refl (conj eq_refl (conj Est (conj eq_refl
            (conj eq_refl _)))))))))).
  exact (max_same_reading _ _ m c Eps Eps').
Qed.

Lemma generic_agree g now s h :
  sameCells s h ->
  (forall v, nth_error (axes g) 1 = Some v -> ~ v == 0) ->
  (2 <= List.length (axes g))%nat ->
  sameCells (genericUpdate g now s) (Home.genericUpdate g now h).
Proof.
  intros (Et & Eb & Es & Eh & Ec & El & Ed & Est & Ept & Epb & Eps) H1 Hlen.
  destruct (axes g) as [|c [|a l]] eqn:Eax; simpl in Hlen; try lia.
  specialize (H1 a eq_refl).
  unfold sameCells, genericUpdate, Home.genericUpdate.
  rewrite Eax.
  cbn [nth_error throttle brake steering history connectionStatus lastUpdate
       debugInfo sessionStats
       Home.throttle Home.brake Home.steering Home.history
       Home.connectionStatus Home.lastUpdate Home.debugInfo
       Home.sessionStats].
  assert (Ea : orNumber (Some a) (-1) = orNumber (Some a) 0).
  { cbn [orNumber]. destruct (Qeq_bool a 0) eqn:E; [|reflexivity].
    apply Qeq_bool_eq in E. contradiction. }
  rewrite Ea.
  exact (conj eq_refl (conj eq_refl (conj eq_refl (conj Eh (conj eq_refl
           (conj eq_refl (conj Ed (conj Est (conj Ept (conj Epb Eps)))))))))).
Qed.

Lemma setConnectionStatus_agree c s h :
  sameCells s h ->
  sameCells (setConnectionStatus c s) (Home.setConnectionStatus c h).
Proof.
  intros (Et & Eb & Es & Eh & Ec & El & Ed & Est & Ept & Epb & Eps).
  exact (conj Et (conj Eb (conj Es (conj Eh (conj eq_refl
           (conj El (conj Ed (conj Est (conj Ept (conj Epb Eps)))))))))).
Qed.

Lemma step_agree e s h :
  eventOffZero e -> sameCells s h ->
  sameCells (step e s) (Home.step e h).
Proof.
  intros He Hsh. destruct e as [gamepads now| |now]; cbn [step Home.step].
  - cbn [eventOffZero] in He.
    destruct (hasMatch gamepads) eqn:Hm.
    + destruct (hasMatch_first _ Hm) as (i & g & Hf).
      rewrite (pollGamepads_matched _ _ _ now s Hf).
      rewrite (Home_poll_matched _ _ _ now h Hf).
      destruct (He g (firstMatch_In _ _ _ Hf)) as (H3 & H1 & H2).
      destruct Hf as (_ & Hg & _).
      apply matched_agree; auto.
    + rewrite (pollGamepads_unmatched gamepads now s Hm).
      rewrite (Home_poll_unmatched gamepads now h Hm).
      destruct (existsb notNull gamepads).
      * destruct (find notNull gamepads) as [[g|]|] eqn:Hfind; try exact Hsh.
        destruct (Nat.leb_spec 2 (List.length (axes g))); [|exact Hsh].
        destruct (He g (proj1 (find_some _ _ Hfind))) as (_ & H1 & _).
        now apply generic_agree.
      * destruct Hsh as (Et & Eb & Es & Eh & Ec & El & Ed & Est & Ept
                         & Epb & Eps) eqn:Hsame.
        rewrite <- El.
        destruct (now - lastUpdate s >? 2000)%Z;
          [apply setConnectionStatus_agree|];
          exact (conj Et (conj Eb (conj Es (conj Eh (conj Ec (conj El
                   (conj Ed (conj Est (conj Ept (conj Epb Eps)))))))))).
  - destruct Hsh as (Et & Eb & Es & Eh & Ec & El & Ed & Est & Ept
                     & Epb & Eps).
    unfold sameCells, historyTick, Home.historyTick.
    cbn [setHistory Home.setHistory throttle brake steering history
         connectionStatus lastUpdate debugInfo sessionStats
         Home.throttle Home.brake Home.steering Home.history
         Home.connectionStatus Home.lastUpdate Home.debugInfo
         Home.sessionStats].
    rewrite <- Et, <- Eb, <- Es, <- Eh.
    exact (conj eq_refl (conj eq_refl (conj eq_refl (conj eq_refl (conj Ec
             (conj El (conj Ed (conj Est (conj Ept (conj Epb Eps)))))))))).
  - destruct Hsh as (Et & Eb & Es & Eh & Ec & El & Ed & Est & Ept
                     & Epb & Eps).
    exact (conj Et (conj Eb (conj Es (conj Eh (conj eq_refl
             (conj eq_refl (conj Ed (conj Est (conj Ept (conj Epb Eps)))))))))).
Qed.

(** X19. The two versions of the component stay in step: run from mount
    on the same events, they hold the same readings, history, status, last
    update, diagnostics and pedal peaks, and their steering peaks, one in
    degrees and one in percent, come from the same reading, as long as no
    pedal axis reads exactly 0 and every device that matches has at least
    3 axes.  The versions differ only in what they make of a pedal axis
    that is missing or reads exactly 0. *)
Theorem versions_agree tUpdate tStart es :
  Forall eventOffZero es ->
  sameCells (run es (initialState tUpdate tStart))
    (Home.run es (Home.initialState tUpdate tStart)).
Proof.
  intros Hes.
  assert (H0 : sameCells (initialState tUpdate tStart)
                 (Home.initialState tUpdate tStart)).
  { unfold sameCells. cbn. repeat split. exists 0. split; reflexivity. }
  revert H0. generalize (initialState tUpdate tStart).
  generalize (Home.initialState tUpdate tStart).
  induction Hes as [|e es He Hes IH]; intros h s Hsh; [exact Hsh|].
  cbn [run Home.run fold_left]. apply IH. now apply step_agree.
Qed.

Lemma mixedRun_offZero : Forall eventOffZero mixedRun.
Proof.
  unfold mixedRun. repeat apply Forall_cons; try apply Forall_nil;
    try exact I.
  - intros g [H | [H | []]]; [discriminate H|]. injection H as <-.
    split; [intros _; simpl; lia|].
    split; intros v Hv; simpl in Hv; injection Hv as <-; discriminate.
  - intros g [H | []]. injection H as <-.
    split; [intros Hm; vm_compute in Hm; discriminate Hm|].
    split; intros v Hv; simpl in Hv; [|discriminate Hv].
    injection Hv as <-. discriminate.
Defined.

Lemma versions_agree_witness :
  sameCells (run mixedRun (initialState 0 0))
    (Home.run mixedRun (Home.initialState 0 0)).
Proof. apply versions_agree. exact mixedRun_offZero. Defined.

End HomeVersion.

(** ** The session clock of [Home.tsx] *)

Section SessionClock.

Local Open Scope string_scope.
Local Open Scope Z_scope.

Lemma padStart_two_digits sec :
  0 <= sec < 60 ->
  Home.padStart 2 "0" (Home.toString sec) = twoDigits sec.
Proof.
  intros Hsec.
  assert (Hall : forallb
            (fun k => String.eqb
                        (Home.padStart 2 "0" (Home.toString (Z.of_nat k)))
                        (twoDigits (Z.of_nat k)))
            (seq 0 60) = true) by (vm_compute; reflexivity).
  rewrite forallb_forall in Hall.
  specialize (Hall (Z.to_nat sec)).
  rewrite Z2Nat.id in Hall by lia.
  apply String.eqb_eq. apply Hall. apply in_seq. lia.
Qed.

Lemma string_length_app (s t : string) :
  String.length (s ++ t) = (String.length s + String.length t)%nat.
Proof. induction s as [|c s IH]; simpl; [reflexivity | now rewrite IH]. Qed.

Lemma string_app_inj (s1 : string) : forall s2 t1 t2 : string,
  String.length t1 = String.length t2 ->
  s1 ++ t1 = s2 ++ t2 -> s1 = s2 /\ t1 = t2.
Proof.
  induction s1 as [|c s1 IH]; intros s2 t1 t2 Hlen H.
  - destruct s2 as [|c2 s2]; [auto|].
    apply (f_equal String.length) in H. simpl in H.
    rewrite string_length_app in H. lia.
  - destruct s2 as [|c2 s2].
    + apply (f_equal String.length) in H. simpl in H.
      rewrite string_length_app in H. lia.
    + simpl in H. injection H as -> H.
      destruct (IH _ _ _ Hlen H) as [-> ->]. auto.
Qed.

Lemma toString_inj m n : Home.toString m = Home.toString n -> m = n.
Proof.
  unfold Home.toString. intros H.
  apply (f_equal NilEmpty.int_of_string) in H.
  rewrite !NilEmpty.isi in H. injection H as H.
  apply (f_equal Z.of_int) in H. now rewrite !DecimalZ.of_to in H.
Qed.

Lemma digitChar_inj a b :
  0 <= a < 10 -> 0 <= b < 10 -> digitChar a = digitChar b -> a = b.
Proof.
  unfold digitChar. intros Ha Hb H.
  apply (f_equal nat_of_ascii) in H.
  rewrite !nat_ascii_embedding in H by lia. lia.
Qed.

Lemma twoDigits_inj a b :
  0 <= a < 60 -> 0 <= b < 60 -> twoDigits a = twoDigits b -> a = b.
Proof.
  unfold twoDigits. intros Ha Hb H. injection H as H1 H0.
  apply digitChar_inj in H1;
    [|split; [apply Z.div_pos; lia | apply Z.div_lt_upper_bound; lia] ..].
  apply digitChar_inj in H0; [|apply Z.mod_pos_bound; lia ..].
  rewrite (Z.div_mod a 10), (Z.div_mod b 10) by lia. lia.
Qed.

Lemma formatSessionTime_eq now h :
  startTime (Home.sessionStats h) <= now ->
  Home.formatSessionTime now h =
    Home.toString (sessionSeconds now h / 60) ++ ":"
      ++ twoDigits (sessionSeconds now h mod 60).
Proof.
  intros Hnow. unfold Home.formatSessionTime. fold (sessionSeconds now h).
  assert (He : 0 <= sessionSeconds now h).
  { unfold sessionSeconds. apply Z.div_pos; lia. }
  rewrite Z.rem_mod_nonneg by lia.
  rewrite padStart_two_digits by (apply Z.mod_pos_bound; lia).
  reflexivity.
Qed.

(** X20. For a clock reading not before the start of the session, the time
    shown is the whole minutes in decimal, a colon, and the remaining
    seconds on exactly two digits, tens first; and the text determines the
    whole seconds elapsed: two readings are shown alike only if they are in
    the same second of the session. *)
Theorem formatSessionTime_shape now h :
  startTime (Home.sessionStats h) <= now ->
  Home.formatSessionTime now h =
    Home.toString (sessionSeconds now h / 60) ++ ":"
      ++ twoDigits (sessionSeconds now h mod 60) /\
  0 <= sessionSeconds now h mod 60 < 60 /\
  0 <= sessionSeconds now h / 60 /\
  (forall now',
     startTime (Home.sessionStats h) <= now' ->
     Home.formatSessionTime now' h = Home.formatSessionTime now h ->
     sessionSeconds now' h = sessionSeconds now h).
Proof.
  intros Hnow.
  assert (He : 0 <= sessionSeconds now h).
  { unfold sessionSeconds. apply Z.div_pos; lia. }
  split; [now apply formatSessionTime_eq|].
  split; [apply Z.mod_pos_bound; lia|].
  split; [apply Z.div_pos; lia|].
  intros now' Hnow' H.
  assert (He' : 0 <= sessionSeconds now' h).
  { unfold sessionSeconds. apply Z.div_pos; lia. }
  rewrite !formatSessionTime_eq in H by assumption.
  apply string_app_inj in H as [Hm Hs]; [|reflexivity].
  apply toString_inj in Hm. injection Hs as Hs0 Hs1.
  assert (Hsec : sessionSeconds now' h mod 60 = sessionSeconds now h mod 60).
  { apply twoDigits_inj; try (apply Z.mod_pos_bound; lia).
    unfold twoDigits. now rewrite Hs0, Hs1. }
  rewrite (Z.div_mod (sessionSeconds now' h) 60),
          (Z.div_mod (sessionSeconds now h) 60) by lia.
  lia.
Qed.

Lemma formatSessionTime_shape_witness :
  Home.formatSessionTime 1754321 (Home.initialState 1000000 1000000)
    = "12:34" /\
  0 <= sessionSeconds 1754321 (Home.initialState 1000000 1000000) mod 60 < 60.
Proof.
  destruct (formatSessionTime_shape 1754321
              (Home.initialState 1000000 1000000)) as (Hs & Hr & _).
  - simpl. lia.
  - split; [exact Hs | exact Hr].
Defined.

End SessionClock.

(** ** The read-outs *)

Section ReadOuts.

Local Open Scope Q_scope.

(** X21. The read-out of a percentage shows a whole number of percent that
    is the nearest to the value, at most one half away, and within 0 and
    100 like the value itself. *)
Theorem percentText_nearest x :
  isPercent x ->
  exists n : Z,
    percentText x = (Home.toString n ++ "%")%string /\
    (0 <= n <= 100)%Z /\
    inject_Z n - (1 # 2) <= x /\ x < inject_Z n + (1 # 2).
Proof.
  intros [H0 H100]. exists (Qfloor (x + (1 # 2))).
  unfold percentText, toFixed0.
  assert (Hneg : Qltb x 0 = false) by (apply Qltb_ge; exact H0).
  rewrite Hneg. split; [reflexivity|].
  pose proof (Qfloor_le (x + (1 # 2))) as Hlo.
  pose proof (Qlt_floor (x + (1 # 2))) as Hhi.
  rewrite inject_Z_plus in Hhi. change (inject_Z 1) with 1 in Hhi.
  split.
  - split.
    + change 0%Z with (Qfloor 0). apply Qfloor_resp_le. lra.
    + assert (Hlt : inject_Z (Qfloor (x + (1 # 2))) < inject_Z 101).
      { eapply Qle_lt_trans; [exact Hlo|]. change (inject_Z 101) with 101.
        lra. }
      rewrite <- Zlt_Qlt in Hlt. lia.
  - split; lra.
Qed.

Lemma percentText_nearest_witness :
  exists n : Z,
    percentText 49.5 = (Home.toString n ++ "%")%string /\
    (0 <= n <= 100)%Z /\
    inject_Z n - (1 # 2) <= 49.5 /\ 49.5 < inject_Z n + (1 # 2).
Proof.
  apply percentText_nearest. split; discriminate.
Defined.

End ReadOuts.
